(** * researchrepo front end: a model of [static/script.js]

    The script is a browser page controller: pure formatting helpers
    ([formatNumber], [escapeHtml]), template renderers that assign to the
    [innerHTML] of a few containers, and an autocomplete dropdown driven by
    input events, a debounce timer and [fetch] completions.

    JavaScript strings are sequences of UTF-16 code units, so a string is a
    [list N] here; [.length] is [length] and template literals are
    concatenations.  The module-level [let] variables and the DOM nodes the
    script touches are the fields of one record, threaded through every
    handler; timers and in-flight requests are explicit queues of the event
    loop, and an [async] function is the pair of its part before the first
    [await] and its part after the awaited fetch has settled.

    The repository also holds an earlier copy of the search form script,
    with the same [formatNumber] and without validation, escaping or
    autocomplete; everything below is about [static/script.js]. *)

From Stdlib Require Import ZArith NArith List String Ascii Bool Lia.
From Stdlib Require Import Permutation.
From Stdlib Require Import Floats.SpecFloat.
Import ListNotations.

Set Implicit Arguments.

(** ** JavaScript strings *)

Module Js.

Definition char16 := N.
Definition jsstring := list char16.

(** An ASCII literal of the script, as code units. *)
Definition lit (s : string) : jsstring :=
  map N_of_ascii (list_ascii_of_string s).

(** The double-quote character, which the templates use around attribute
    values. *)
Definition dq : jsstring := [34%N].
(** The line feed that starts and ends every multi-line template. *)
Definition nl : jsstring := [10%N].

Fixpoint eqb (a b : jsstring) : bool :=
  match a, b with
  | [], [] => true
  | x :: a', y :: b' => N.eqb x y && eqb a' b'
  | _, _ => false
  end.

(** A quoted attribute value of a template, and one line of a multi-line
    template: the line feed, the indentation, the text. *)
Definition q (s : string) : jsstring := dq ++ lit s ++ dq.
Definition line (indent : nat) (text : jsstring) : jsstring :=
  nl ++ repeat 32%N indent ++ text.

(** Truthiness of a string value: only the empty string is falsy. *)
Definition truthy (s : jsstring) : bool :=
  match s with [] => false | _ :: _ => true end.

(** [a || b] on an optional string property: [undefined] and [""] both
    fall through to the default. *)
Definition orElse (a : option jsstring) (b : jsstring) : jsstring :=
  match a with
  | Some s => if truthy s then s else b
  | None => b
  end.

(** ECMAScript WhiteSpace and LineTerminator code points, the set
    [String.prototype.trim] strips. *)
Definition isWhiteSpace (c : char16) : bool :=
  ((9 <=? c) && (c <=? 13) || (c =? 32) || (c =? 160) || (c =? 5760)
   || (8192 <=? c) && (c <=? 8202) || (c =? 8232) || (c =? 8233)
   || (c =? 8239) || (c =? 8287) || (c =? 12288) || (c =? 65279))%N.

Fixpoint trimStart (s : jsstring) : jsstring :=
  match s with
  | c :: s' => if isWhiteSpace c then trimStart s' else s
  | [] => []
  end.

Definition trimEnd (s : jsstring) : jsstring := rev (trimStart (rev s)).

Definition trim (s : jsstring) : jsstring := trimEnd (trimStart s).

(** Decimal digits of a natural number, most significant first; [fuel]
    bounds the number of digits. *)
Fixpoint digitsN (fuel : nat) (n : N) (acc : jsstring) : jsstring :=
  match fuel with
  | O => acc
  | S fuel' =>
      let acc' := (48 + n mod 10)%N :: acc in
      if (n <? 10)%N then acc' else digitsN fuel' (n / 10)%N acc'
  end.

Definition decimalN (n : N) : jsstring :=
  digitsN (S (N.to_nat (N.log2 n))) n [].

(** [String(n)] for an integer-valued number. *)
Definition decimalZ (z : Z) : jsstring :=
  match z with
  | Z0 => lit "0"
  | Zpos p => decimalN (Npos p)
  | Zneg p => lit "-" ++ decimalN (Npos p)
  end.

End Js.

Import Js.

(** ** Formatter: [escapeHtml] and [formatNumber] *)

Module Formatter.

Local Open Scope Z_scope.

(** [escapeHtml] assigns the text to [div.textContent] and reads
    [div.innerHTML] back: the browser serialises the single text node with
    the HTML fragment serialisation algorithm, which replaces [&], the
    no-break space, [<] and [>] and leaves every other code unit alone
    (quotes are only replaced in attribute mode, which is not the mode of a
    text node). *)
Definition escapeChar (c : char16) : jsstring :=
  if (c =? 38)%N then lit "&amp;"
  else if (c =? 160)%N then lit "&nbsp;"
  else if (c =? 60)%N then lit "&lt;"
  else if (c =? 62)%N then lit "&gt;"
  else [c].

Definition escapeHtml (text : jsstring) : jsstring :=
  flat_map escapeChar text.

(** What an HTML parser reads back from character data: the four named
    references above stand for their characters. *)
Fixpoint unescapeHtml (s : jsstring) : jsstring :=
  match s with
  | 38 :: 97 :: 109 :: 112 :: 59 :: r => 38 :: unescapeHtml r
  | 38 :: 110 :: 98 :: 115 :: 112 :: 59 :: r => 160 :: unescapeHtml r
  | 38 :: 108 :: 116 :: 59 :: r => 60 :: unescapeHtml r
  | 38 :: 103 :: 116 :: 59 :: r => 62 :: unescapeHtml r
  | c :: r => c :: unescapeHtml r
  | [] => []
  end%N.

(** *** Numbers

    A JavaScript number is an IEEE 754 binary64 value; the Standard
    Library's [spec_float] with 53 bits of precision is that format.  The
    counts the page formats come from JSON integers, so [formatNumber]
    takes the integer and the comparisons with the integer literals
    [1_000_000] and [1_000] are integer comparisons; the quotient is the
    correctly rounded binary64 division. *)
Definition prec : Z := 53.
Definition emax : Z := 1024.

Definition ofZ (z : Z) : spec_float := binary_normalize prec emax z 0 false.
Definition fdiv (x y : spec_float) : spec_float := SFdiv prec emax x y.

(** The integer [n] for which [n / 10 - x] is as close to zero as possible,
    the larger one when there are two, for [x = m * 2^e]. *)
Definition nearestTenths (m : positive) (e : Z) : N :=
  match e with
  | Zneg p => Z.to_N ((20 * Zpos m + 2 ^ Zpos p) / 2 ^ (Zpos p + 1))
  | _ => Z.to_N (10 * Zpos m * 2 ^ e)
  end.

(** Steps 11.a to 11.c of [Number.prototype.toFixed] with one fraction
    digit: the digits of [n], padded to two, with a point before the
    last. *)
Definition placePoint (n : N) : jsstring :=
  let m := decimalN n in
  let m := if (List.length m <=? 1)%nat then lit "0" ++ m else m in
  let k := List.length m in
  firstn (k - 1)%nat m ++ lit "." ++ skipn (k - 1)%nat m.

(** [Number::toString] of an integer-valued [x >= 10^21] of exact value
    [X]: the shortest digit string [s] of [k] digits with
    [s * 10^(n-k)] rounding to [x], printed in exponent notation. *)
Definition roundTrips (x : spec_float) (v : Z) : bool := SFeqb (ofZ v) x.

Definition closer (X : Z) (a b : Z * Z) : Z * Z :=
  let da := Z.abs (fst a * snd a - X) in
  let db := Z.abs (fst b * snd b - X) in
  if da <? db then a
  else if db <? da then b
  else if Z.even (fst a) then a else b.

Definition pick (x : spec_float) (X : Z) (cands : list (Z * Z))
  : option (Z * Z) :=
  fold_left
    (fun best c =>
       if roundTrips x (fst c * snd c) then
         match best with
         | Some b => Some (closer X b c)
         | None => Some c
         end
       else best)
    cands None.

Fixpoint shortest (fuel : nat) (k : Z) (x : spec_float) (X d : Z)
  : Z * Z :=
  let p := 10 ^ (d - k) in
  let s := X / p in
  let cands :=
    (s, p) :: (if s + 1 <? 10 ^ k then [(s + 1, p)] else [(1, 10 ^ d)]) in
  match pick x X cands, fuel with
  | Some r, _ => r
  | None, S fuel' => shortest fuel' (k + 1) x X d
  | None, O => (X, 1)
  end.

Definition toStringLarge (x : spec_float) (X : Z) : jsstring :=
  let d := Z.of_nat (List.length (decimalZ X)) in
  let '(s, p) := shortest 17 1 x X d in
  let n := Z.of_nat (List.length (decimalZ (s * p))) in
  match decimalZ s with
  | c :: rest =>
      [c] ++ (if truthy rest then lit "." ++ rest else [])
          ++ lit "e+" ++ decimalZ (n - 1)
  | [] => []
  end.

(** [x.toFixed(1)], following the steps of the language specification.
    A finite value is [m * 2^e] with [m < 2^53], so it reaches [10^21] only
    with a positive exponent, where the product below is exact. *)
Definition toFixed1 (x : spec_float) : jsstring :=
  match x with
  | S754_nan => lit "NaN"
  | S754_infinity s => (if s then lit "-" else []) ++ lit "Infinity"
  | S754_zero _ => placePoint 0
  | S754_finite s m e =>
      (if s then lit "-" else []) ++
      (if 10 ^ 21 <=? Zpos m * 2 ^ e
       then toStringLarge (S754_finite false m e) (Zpos m * 2 ^ e)
       else placePoint (nearestTenths m e))
  end.

Definition formatNumber (num : Z) : jsstring :=
  if num >=? 1000000 then
    toFixed1 (fdiv (ofZ num) (ofZ 1000000)) ++ lit "M"
  else if num >=? 1000 then
    toFixed1 (fdiv (ofZ num) (ofZ 1000)) ++ lit "K"
  else decimalZ num.

End Formatter.

Import Formatter.


(** ** Renderer: the templates *)

Module Renderer.

Record Video := {
  video_url : jsstring;
  video_thumbnail : jsstring;
  video_title : jsstring;
  video_channel : jsstring;
  video_views : jsstring;
  video_published : jsstring
}.

(** A repo object of the search response.  A property that is absent reads
    as [undefined]: [None]. *)
Record Repo := {
  repo_url : option jsstring;
  repo_name : option jsstring;
  repo_stars : option Z;
  repo_forks : option Z;
  repo_author : option jsstring;
  repo_language : option jsstring;
  repo_description : option jsstring
}.

Record Suggestion := {
  suggestion_title : jsstring;
  suggestion_year : option Z;
  suggestion_category : option jsstring
}.

Inductive LogEntry :=
| ConsoleLog (label : jsstring)
| ConsoleWarn (label : jsstring)
| ConsoleError (label : jsstring).

(** [!v] on an optional string property. *)
Definition falsy (v : option jsstring) : bool :=
  match v with
  | Some s => negb (truthy s)
  | None => true
  end.

(** [v || 0] on an optional count. *)
Definition orZero (v : option Z) : Z :=
  match v with
  | Some n => n
  | None => 0%Z
  end.

(** [escapeHtml] of a property that may be [undefined]: [textContent] takes
    [undefined] as the empty string. *)
Definition escapeHtmlOf (v : option jsstring) : jsstring :=
  match v with
  | Some s => escapeHtml s
  | None => []
  end.

Definition bullet : jsstring := [8226%N].
Definition star : jsstring := [9733%N].
Definition fork : jsstring := [9282%N].

Definition loadingHtml : jsstring :=
  line 4 (lit "<div class=" ++ q "loading-dots" ++ lit ">") ++
  line 6 (lit "<span class=" ++ q "pulse" ++ lit "></span>") ++
  line 6 (lit "<span class=" ++ q "pulse" ++ lit "></span>") ++
  line 6 (lit "<span class=" ++ q "pulse" ++ lit "></span>") ++
  line 4 (lit "</div>") ++
  line 2 [].

Definition errorHtml (message : jsstring) : jsstring :=
  line 4 (lit "<div class=" ++ q "error-banner" ++ lit ">") ++
  line 6 (escapeHtml message) ++
  line 4 (lit "</div>") ++
  line 2 [].

Definition emptyState (message : string) : jsstring :=
  lit "<div class=" ++ q "empty-state" ++ lit ">" ++ lit message
  ++ lit "</div>".

Definition videoCard (video : Video) : jsstring :=
  line 6 (lit "<a href=" ++ dq ++ escapeHtml (video_url video) ++ dq
          ++ lit " target=" ++ q "_blank" ++ lit " rel="
          ++ q "noopener noreferrer" ++ lit " class=" ++ q "video-card"
          ++ lit ">") ++
  line 8 (lit "<div class=" ++ q "video-thumbnail" ++ lit ">") ++
  line 10 (lit "<img src=" ++ dq ++ escapeHtml (video_thumbnail video) ++ dq
           ++ lit " alt=" ++ dq ++ escapeHtml (video_title video) ++ dq
           ++ lit " loading=" ++ q "lazy" ++ lit " />") ++
  line 8 (lit "</div>") ++
  line 8 (lit "<div class=" ++ q "video-details" ++ lit ">") ++
  line 10 (lit "<h3>" ++ escapeHtml (video_title video) ++ lit "</h3>") ++
  line 10 (lit "<p>" ++ escapeHtml (video_channel video) ++ lit "</p>") ++
  line 10 (lit "<p>" ++ escapeHtml (video_views video) ++ lit " " ++ bullet
           ++ lit " " ++ escapeHtml (video_published video) ++ lit "</p>") ++
  line 8 (lit "</div>") ++
  line 6 (lit "</a>") ++
  line 4 [].

(** The value [renderVideos] assigns to [videosContainer.innerHTML]. *)
Definition videosHtml (videos : option (list Video)) : jsstring :=
  match videos with
  | None | Some [] => emptyState "No video explanations found"
  | Some vs => List.concat (map videoCard vs)
  end.

Definition repoCard (repo : Repo) : jsstring :=
  line 10 (lit "<a href=" ++ dq ++ escapeHtmlOf (repo_url repo) ++ dq
           ++ lit " target=" ++ q "_blank" ++ lit " rel="
           ++ q "noopener noreferrer" ++ lit " class=" ++ q "repo-card"
           ++ lit ">") ++
  line 12 (lit "<div class=" ++ q "repo-header" ++ lit ">") ++
  line 14 (lit "<h3>" ++ escapeHtmlOf (repo_name repo) ++ lit "</h3>") ++
  line 14 (lit "<div class=" ++ q "repo-stats" ++ lit ">") ++
  line 16 (lit "<div class=" ++ q "repo-stat" ++ lit ">") ++
  line 18 (lit "<span>" ++ star ++ lit "</span>") ++
  line 18 (lit "<span>" ++ formatNumber (orZero (repo_stars repo))
           ++ lit "</span>") ++
  line 16 (lit "</div>") ++
  line 16 (lit "<div class=" ++ q "repo-stat" ++ lit ">") ++
  line 18 (lit "<span>" ++ fork ++ lit "</span>") ++
  line 18 (lit "<span>" ++ formatNumber (orZero (repo_forks repo))
           ++ lit "</span>") ++
  line 16 (lit "</div>") ++
  line 14 (lit "</div>") ++
  line 12 (lit "</div>") ++
  line 12 (lit "<div class=" ++ q "repo-details" ++ lit ">") ++
  line 14 (lit "<p>" ++ escapeHtml (orElse (repo_author repo) (lit "Unknown"))
           ++ lit " " ++ bullet ++ lit " "
           ++ escapeHtml (orElse (repo_language repo) (lit "Various"))
           ++ lit "</p>") ++
  line 14 (lit "<p>"
           ++ escapeHtml (orElse (repo_description repo)
                                 (lit "No description available"))
           ++ lit "</p>") ++
  line 12 (lit "</div>") ++
  line 10 (lit "</a>") ++
  line 8 [].

(** The validation inside the [map] callback of [renderRepos]:
    [!repo.url || !repo.name]. *)
Definition invalidRepo (repo : Repo) : bool :=
  falsy (repo_url repo) || falsy (repo_name repo).

(** The [map] callback of [renderRepos] over the array, left to right.  An
    entry that is [null] ([None]) makes [repo.url] throw: the result is
    [None] and the callbacks after it do not run.  The first component
    collects the [console.warn] calls. *)
Fixpoint mapRepos (repos : list (option Repo))
  : list LogEntry * option (list jsstring) :=
  match repos with
  | [] => ([], Some [])
  | None :: _ => ([], None)
  | Some repo :: rest =>
      let (warned, html) :=
        if invalidRepo repo
        then ([ConsoleWarn (lit "Invalid repo data:")], [])
        else ([], repoCard repo) in
      let (warns, htmls) := mapRepos rest in
      (warned ++ warns, option_map (cons html) htmls)
  end.

(** The value [renderRepos] assigns to [reposContainer.innerHTML], with what
    it writes to the console. *)
Definition reposHtml (repos : option (list (option Repo)))
  : list LogEntry * jsstring :=
  let logged := [ConsoleLog (lit "Rendering repos:")] in
  match repos with
  | None | Some [] => (logged, emptyState "No code implementations found")
  | Some rs =>
      match mapRepos rs with
      | (warns, Some htmls) =>
          let html := List.concat (filter truthy htmls) in
          if negb (truthy html)
          then (logged ++ warns,
                emptyState "No valid code implementations found")
          else (logged ++ warns, html)
      | (warns, None) =>
          (logged ++ warns ++ [ConsoleError (lit "Error rendering repos:")],
           emptyState "Error displaying code implementations")
      end
  end.

(** One row of the dropdown; [index] is the position [map] passes. *)
Definition suggestionRow (suggestion : Suggestion) (index : nat) : jsstring :=
  line 6 (lit "<div class=" ++ q "autocomplete-item" ++ lit " data-index="
          ++ dq ++ decimalZ (Z.of_nat index) ++ dq ++ lit " data-paper="
          ++ dq ++ escapeHtml (suggestion_title suggestion) ++ dq
          ++ lit ">") ++
  line 8 (lit "<div class=" ++ q "autocomplete-item-title" ++ lit ">"
          ++ escapeHtml (suggestion_title suggestion) ++ lit "</div>") ++
  line 8 (lit "<div class=" ++ q "autocomplete-item-meta" ++ lit ">") ++
  line 10 (lit "<span class=" ++ q "autocomplete-item-year" ++ lit ">"
           ++ match suggestion_year suggestion with
              | Some y => if (y =? 0)%Z then lit "N/A" else decimalZ y
              | None => lit "N/A"
              end
           ++ lit "</span>") ++
  line 10 (if falsy (suggestion_category suggestion) then []
           else lit "<span class=" ++ q "autocomplete-item-category"
                ++ lit ">"
                ++ escapeHtmlOf (suggestion_category suggestion)
                ++ lit "</span>") ++
  line 8 (lit "</div>") ++
  line 6 (lit "</div>") ++
  line 4 [].

Fixpoint suggestionRows (suggestions : list Suggestion) (index : nat)
  : list jsstring :=
  match suggestions with
  | [] => []
  | s :: rest => suggestionRow s index :: suggestionRows rest (S index)
  end.

End Renderer.

Import Renderer.

(** ** The page: module-level variables, DOM nodes and the event loop *)

Module App.

Local Open Scope Z_scope.

(** An [.autocomplete-item] element as the handlers see it: its
    [data-index] and [data-paper] attributes and whether its class list has
    [selected]. *)
Record Item := {
  item_index : nat;
  item_paper : jsstring;
  item_selected : bool
}.

(** The module-level [let] variables the autocomplete uses, and
    [currentCategory]. *)
Record Vars := {
  currentCategory : jsstring;
  autocompleteSuggestions : list Suggestion;
  selectedSuggestionIndex : Z;
  autocompleteDebounceTimer : option nat
}.

(** The DOM nodes the handlers read and write.  [dropdown_items] is the
    result of [querySelectorAll(".autocomplete-item")]: the rows the parser
    builds when the dropdown's [innerHTML] is assigned. *)
Record Dom := {
  paperInput_value : jsstring;
  paperInput_focused : bool;
  dropdown_visible : bool;
  dropdown_innerHTML : jsstring;
  dropdown_items : list Item;
  videosContainer_innerHTML : jsstring;
  reposContainer_innerHTML : jsstring
}.

Inductive Callback :=
| LoadSuggestions (query : jsstring)
| ScrollToResults.

Record Timer := {
  timer_id : nat;
  timer_due : nat;
  timer_callback : Callback
}.

(** The two endpoints the modelled handlers call, with the value that
    [encodeURIComponent] encodes. *)
Inductive Url :=
| SuggestionsUrl (query : jsstring)
| SearchUrl (query : jsstring) (category : option jsstring).

Record Request := {
  request_id : nat;
  request_url : Url
}.

(** The event loop: the clock in milliseconds, the pending timeouts, the
    pending fetches, every fetch issued so far, and the console. *)
Record Loop := {
  now : nat;
  timers : list Timer;
  nextTimer : nat;
  inflight : list Request;
  nextRequest : nat;
  fetched : list Url;
  console : list LogEntry
}.

Record World := {
  vars : Vars;
  dom : Dom;
  loop : Loop
}.

(** How an awaited [fetch] followed by [resp.json()] settles. *)
Inductive Settled (A : Type) :=
| NetworkError (message : jsstring)
| HttpError
| BadJson (message : jsstring)
| Ok (data : A).

Arguments NetworkError {A} message.
Arguments HttpError {A}.
Arguments BadJson {A} message.
Arguments Ok {A} data.

Record SearchData := {
  data_videos : option (list Video);
  data_repos : option (list (option Repo))
}.

Inductive Key := ArrowDown | ArrowUp | Enter | Escape | OtherKey.

Inductive Event :=
| Input (value : jsstring)
| KeyDown (key : Key)
| MouseEnterItem (row : nat)
| ClickItem (row : nat)
| ClickOutside
| Submit
| Elapse (ms : nat)
| SuggestionsSettle (id : nat) (outcome : Settled (option (list Suggestion)))
| SearchSettle (id : nat) (outcome : Settled SearchData).

(** *** Field updates *)

Definition setVars (f : Vars -> Vars) (w : World) : World :=
  {| vars := f (vars w); dom := dom w; loop := loop w |}.
Definition setDom (f : Dom -> Dom) (w : World) : World :=
  {| vars := vars w; dom := f (dom w); loop := loop w |}.
Definition setLoop (f : Loop -> Loop) (w : World) : World :=
  {| vars := vars w; dom := dom w; loop := f (loop w) |}.

Definition withSuggestions (l : list Suggestion) (v : Vars) : Vars :=
  {| currentCategory := currentCategory v;
     autocompleteSuggestions := l;
     selectedSuggestionIndex := selectedSuggestionIndex v;
     autocompleteDebounceTimer := autocompleteDebounceTimer v |}.
Definition withSelected (i : Z) (v : Vars) : Vars :=
  {| currentCategory := currentCategory v;
     autocompleteSuggestions := autocompleteSuggestions v;
     selectedSuggestionIndex := i;
     autocompleteDebounceTimer := autocompleteDebounceTimer v |}.
Definition withDebounceTimer (t : option nat) (v : Vars) : Vars :=
  {| currentCategory := currentCategory v;
     autocompleteSuggestions := autocompleteSuggestions v;
     selectedSuggestionIndex := selectedSuggestionIndex v;
     autocompleteDebounceTimer := t |}.

Definition withInput (value : jsstring) (focused : bool) (d : Dom) : Dom :=
  {| paperInput_value := value;
     paperInput_focused := focused;
     dropdown_visible := dropdown_visible d;
     dropdown_innerHTML := dropdown_innerHTML d;
     dropdown_items := dropdown_items d;
     videosContainer_innerHTML := videosContainer_innerHTML d;
     reposContainer_innerHTML := reposContainer_innerHTML d |}.
Definition withVisible (b : bool) (d : Dom) : Dom :=
  {| paperInput_value := paperInput_value d;
     paperInput_focused := paperInput_focused d;
     dropdown_visible := b;
     dropdown_innerHTML := dropdown_innerHTML d;
     dropdown_items := dropdown_items d;
     videosContainer_innerHTML := videosContainer_innerHTML d;
     reposContainer_innerHTML := reposContainer_innerHTML d |}.
Definition withDropdown (html : jsstring) (items : list Item) (d : Dom) : Dom :=
  {| paperInput_value := paperInput_value d;
     paperInput_focused := paperInput_focused d;
     dropdown_visible := dropdown_visible d;
     dropdown_innerHTML := html;
     dropdown_items := items;
     videosContainer_innerHTML := videosContainer_innerHTML d;
     reposContainer_innerHTML := reposContainer_innerHTML d |}.
Definition withVideos (html : jsstring) (d : Dom) : Dom :=
  {| paperInput_value := paperInput_value d;
     paperInput_focused := paperInput_focused d;
     dropdown_visible := dropdown_visible d;
     dropdown_innerHTML := dropdown_innerHTML d;
     dropdown_items := dropdown_items d;
     videosContainer_innerHTML := html;
     reposContainer_innerHTML := reposContainer_innerHTML d |}.
Definition withRepos (html : jsstring) (d : Dom) : Dom :=
  {| paperInput_value := paperInput_value d;
     paperInput_focused := paperInput_focused d;
     dropdown_visible := dropdown_visible d;
     dropdown_innerHTML := dropdown_innerHTML d;
     dropdown_items := dropdown_items d;
     videosContainer_innerHTML := videosContainer_innerHTML d;
     reposContainer_innerHTML := html |}.

Definition withClock (t : nat) (l : Loop) : Loop :=
  {| now := t; timers := timers l; nextTimer := nextTimer l;
     inflight := inflight l; nextRequest := nextRequest l;
     fetched := fetched l; console := console l |}.
Definition withTimers (ts : list Timer) (next : nat) (l : Loop) : Loop :=
  {| now := now l; timers := ts; nextTimer := next;
     inflight := inflight l; nextRequest := nextRequest l;
     fetched := fetched l; console := console l |}.
Definition withInflight (rs : list Request) (l : Loop) : Loop :=
  {| now := now l; timers := timers l; nextTimer := nextTimer l;
     inflight := rs; nextRequest := nextRequest l;
     fetched := fetched l; console := console l |}.
Definition withFetch (url : Url) (l : Loop) : Loop :=
  {| now := now l; timers := timers l; nextTimer := nextTimer l;
     inflight := inflight l ++ [{| request_id := nextRequest l;
                                   request_url := url |}];
     nextRequest := S (nextRequest l);
     fetched := fetched l ++ [url]; console := console l |}.
Definition withConsole (entries : list LogEntry) (l : Loop) : Loop :=
  {| now := now l; timers := timers l; nextTimer := nextTimer l;
     inflight := inflight l; nextRequest := nextRequest l;
     fetched := fetched l; console := console l ++ entries |}.

(** *** Timers and fetches *)

(** Timer identifiers are positive integers, so a stored identifier is
    always truthy. *)
Definition setTimeout (cb : Callback) (delay : nat) (w : World)
  : nat * World :=
  let l := loop w in
  (nextTimer l,
   setLoop (withTimers
              (timers l ++ [{| timer_id := nextTimer l;
                               timer_due := (now l + delay)%nat;
                               timer_callback := cb |}])
              (S (nextTimer l))) w).

Definition clearTimeout (id : nat) (w : World) : World :=
  setLoop (fun l =>
             withTimers
               (filter (fun t => negb (Nat.eqb (timer_id t) id)) (timers l))
               (nextTimer l) l) w.

Definition fetch (url : Url) (w : World) : World :=
  setLoop (withFetch url) w.

Definition log (entries : list LogEntry) (w : World) : World :=
  setLoop (withConsole entries) w.

(** *** Search results *)

Definition setLoading (isLoading : bool) (w : World) : World :=
  if isLoading
  then setDom (fun d => withRepos loadingHtml (withVideos loadingHtml d)) w
  else w.

Definition renderError (message : jsstring) (w : World) : World :=
  let html := errorHtml message in
  setDom (fun d => withRepos html (withVideos html d)) w.

Definition renderVideos (videos : option (list Video)) (w : World) : World :=
  setDom (withVideos (videosHtml videos)) w.

Definition renderRepos (repos : option (list (option Repo))) (w : World)
  : World :=
  let (logged, html) := reposHtml repos in
  setDom (withRepos html) (log logged w).

(** [data.videos || []] and the like: a missing key reads as the empty
    array. *)
Definition orEmpty {A : Type} (v : option (list A)) : option (list A) :=
  match v with
  | Some l => Some l
  | None => Some []
  end.

(** [performSearch] up to its first [await]: the loading display and the
    request. *)
Definition performSearch_call (query : jsstring) (w : World) : World :=
  let w := setLoading true w in
  let category := currentCategory (vars w) in
  let url :=
    SearchUrl query
      (if truthy category && negb (eqb category (lit "All"))
       then Some category else None) in
  fetch url w.

(** The message of the error that reaches the [catch] of [performSearch]. *)
Definition searchFailure {A : Type} (outcome : Settled A) : option jsstring :=
  match outcome with
  | NetworkError message => Some message
  | HttpError => Some (lit "Search request failed. Please try again.")
  | BadJson message => Some message
  | Ok _ => None
  end.

(** [performSearch] from the point its awaits settle, through [catch] and
    [finally]. *)
Definition performSearch_resume (outcome : Settled SearchData) (w : World)
  : World :=
  let w :=
    match outcome with
    | Ok data =>
        let w := log [ConsoleLog (lit "Search results:")] w in
        let w := renderVideos (orEmpty (data_videos data)) w in
        let w := renderRepos (orEmpty (data_repos data)) w in
        snd (setTimeout ScrollToResults 100 w)
    | _ =>
        renderError
          (orElse (searchFailure outcome)
                  (lit "Something went wrong. Please try again.")) w
    end in
  setLoading false w.

(** *** Autocomplete *)

Definition hideAutocomplete (w : World) : World :=
  let w := setDom (withVisible false) w in
  let w := setDom (withDropdown [] []) w in
  let w := setVars (withSuggestions []) w in
  setVars (withSelected (-1)) w.

(** The value of a double-quoted attribute whose text starts with [s]: it
    runs to the first quote, with character references read back. *)
Fixpoint untilQuote (s : jsstring) : jsstring :=
  match s with
  | c :: r => if (c =? 34)%N then [] else c :: untilQuote r
  | [] => []
  end.

Definition attributeValue (s : jsstring) : jsstring :=
  unescapeHtml (untilQuote s).

(** The rows the parser builds from the dropdown's template: one per
    suggestion, none selected. *)
Fixpoint parseRows (suggestions : list Suggestion) (index : nat)
  : list Item :=
  match suggestions with
  | [] => []
  | s :: rest =>
      {| item_index := index;
         item_paper := attributeValue (escapeHtml (suggestion_title s));
         item_selected := false |} :: parseRows rest (S index)
  end.

Definition renderAutocompleteSuggestions (w : World) : World :=
  let suggestions := autocompleteSuggestions (vars w) in
  if (List.length suggestions =? 0)%nat then hideAutocomplete w
  else
    let w := setVars (withSelected (-1)) w in
    let html := List.concat (suggestionRows suggestions 0) in
    let w := setDom (withDropdown html (parseRows suggestions 0)) w in
    setDom (withVisible true) w.

(** [loadAutocompleteSuggestions] up to its first [await]. *)
Definition loadAutocompleteSuggestions_call (query : jsstring) (w : World)
  : World :=
  fetch (SuggestionsUrl query) w.

(** [loadAutocompleteSuggestions] from the point its awaits settle. *)
Definition loadAutocompleteSuggestions_resume
  (outcome : Settled (option (list Suggestion))) (w : World) : World :=
  match outcome with
  | HttpError => w
  | Ok suggestions =>
      let w :=
        setVars
          (withSuggestions
             (match suggestions with Some l => l | None => [] end)) w in
      renderAutocompleteSuggestions w
  | NetworkError _ | BadJson _ =>
      let w :=
        log [ConsoleError (lit "Error loading autocomplete suggestions:")] w in
      hideAutocomplete w
  end.

(** [handleSearchInput]; [event.target.value] is the value of the input
    field. *)
Definition handleSearchInput (w : World) : World :=
  let query := trim (paperInput_value (dom w)) in
  let w :=
    match autocompleteDebounceTimer (vars w) with
    | Some id => clearTimeout id w
    | None => w
    end in
  if (List.length query <? 2)%nat then hideAutocomplete w
  else
    let (id, w) := setTimeout (LoadSuggestions query) 300 w in
    setVars (withDebounceTimer (Some id)) w.

Fixpoint toggleSelected (selected : Z) (items : list Item) (index : nat)
  : list Item :=
  match items with
  | [] => []
  | item :: rest =>
      {| item_index := item_index item;
         item_paper := item_paper item;
         item_selected := (Z.of_nat index =? selected) |}
      :: toggleSelected selected rest (S index)
  end.

Definition updateSelectedSuggestion (w : World) : World :=
  setDom (fun d =>
            withDropdown (dropdown_innerHTML d)
              (toggleSelected (selectedSuggestionIndex (vars w))
                              (dropdown_items d) 0) d) w.

Definition handleAutocompleteKeyboard (key : Key) (w : World) : World :=
  if negb (dropdown_visible (dom w)) then w
  else
    let items := dropdown_items (dom w) in
    let count := Z.of_nat (List.length items) in
    if count =? 0 then w
    else
      let selected := selectedSuggestionIndex (vars w) in
      match key with
      | ArrowDown =>
          updateSelectedSuggestion
            (setVars (withSelected (Z.min (selected + 1) (count - 1))) w)
      | ArrowUp =>
          updateSelectedSuggestion
            (setVars (withSelected (Z.max (selected - 1) (-1))) w)
      | Enter =>
          if (selected >=? 0) && (selected <? count) then
            match nth_error items (Z.to_nat selected) with
            | Some item =>
                let paperTitle := item_paper item in
                let w :=
                  setDom (fun d =>
                            withInput paperTitle (paperInput_focused d) d) w in
                let w := hideAutocomplete w in
                performSearch_call paperTitle w
            | None => w
            end
          else w
      | Escape =>
          let w := hideAutocomplete w in
          setDom (fun d => withInput (paperInput_value d) false d) w
      | OtherKey => w
      end.

(** The [mouseenter] and [click] listeners of a row; a row that is not in
    the document receives no event.  The click also reaches the listener of
    the document, which leaves the page alone because the target is a
    row. *)
Definition mouseEnterItem (row : nat) (w : World) : World :=
  match nth_error (dropdown_items (dom w)) row with
  | Some item =>
      let w :=
        setDom (fun d =>
                  withDropdown (dropdown_innerHTML d)
                    (toggleSelected (Z.of_nat row) (dropdown_items d) 0) d) w in
      setVars (withSelected (Z.of_nat (item_index item))) w
  | None => w
  end.

Definition clickItem (row : nat) (w : World) : World :=
  match nth_error (dropdown_items (dom w)) row with
  | Some item =>
      let paperTitle := item_paper item in
      let w :=
        setDom (fun d => withInput paperTitle (paperInput_focused d) d) w in
      let w := hideAutocomplete w in
      performSearch_call paperTitle w
  | None => w
  end.

(** The submit listener of the search form. *)
Definition submitSearch (w : World) : World :=
  let query := trim (paperInput_value (dom w)) in
  if negb (truthy query) then w
  else performSearch_call query (hideAutocomplete w).

(** *** The event loop *)

Definition fire (t : Timer) (w : World) : World :=
  match timer_callback t with
  | LoadSuggestions query => loadAutocompleteSuggestions_call query w
  | ScrollToResults => w
  end.

Fixpoint insertByDue (t : Timer) (ts : list Timer) : list Timer :=
  match ts with
  | [] => [t]
  | u :: rest =>
      if (timer_due u <=? timer_due t)%nat then u :: insertByDue t rest
      else t :: ts
  end.

Definition sortByDue (ts : list Timer) : list Timer :=
  fold_left (fun sorted t => insertByDue t sorted) ts [].

(** Time passes: the timeouts that are due run, earliest first. *)
Definition elapse (ms : nat) (w : World) : World :=
  let t' := (now (loop w) + ms)%nat in
  let (due, rest) :=
    partition (fun t => (timer_due t <=? t')%nat) (timers (loop w)) in
  let w :=
    setLoop (fun l => withClock t' (withTimers rest (nextTimer l) l)) w in
  fold_left (fun w t => fire t w) (sortByDue due) w.

Definition isSuggestions (url : Url) : bool :=
  match url with
  | SuggestionsUrl _ => true
  | SearchUrl _ _ => false
  end.

(** The pending request [id], when it is of the given kind, and the other
    pending requests. *)
Definition takeRequest (kind : Url -> bool) (id : nat) (w : World)
  : option World :=
  if existsb (fun r => Nat.eqb (request_id r) id && kind (request_url r))
       (inflight (loop w))
  then
    Some (setLoop (fun l =>
                     withInflight
                       (filter (fun r => negb (Nat.eqb (request_id r) id))
                               (inflight l)) l) w)
  else None.

Definition step (w : World) (e : Event) : World :=
  match e with
  | Input value =>
      handleSearchInput (setDom (fun d => withInput value true d) w)
  | KeyDown key => handleAutocompleteKeyboard key w
  | MouseEnterItem row => mouseEnterItem row w
  | ClickItem row => clickItem row w
  | ClickOutside => hideAutocomplete w
  | Submit => submitSearch w
  | Elapse ms => elapse ms w
  | SuggestionsSettle id outcome =>
      match takeRequest isSuggestions id w with
      | Some w => loadAutocompleteSuggestions_resume outcome w
      | None => w
      end
  | SearchSettle id outcome =>
      match takeRequest (fun u => negb (isSuggestions u)) id w with
      | Some w => performSearch_resume outcome w
      | None => w
      end
  end.

Definition run (w : World) (events : list Event) : World :=
  fold_left step events w.

(** The page after [init]: nothing typed, the dropdown hidden, no timer and
    no request pending. *)
Definition initial : World :=
  {| vars := {| currentCategory := lit "All";
                autocompleteSuggestions := [];
                selectedSuggestionIndex := -1;
                autocompleteDebounceTimer := None |};
     dom := {| paperInput_value := [];
               paperInput_focused := false;
               dropdown_visible := false;
               dropdown_innerHTML := [];
               dropdown_items := [];
               videosContainer_innerHTML := [];
               reposContainer_innerHTML := [] |};
     loop := {| now := 0; timers := []; nextTimer := 1;
                inflight := []; nextRequest := 1;
                fetched := []; console := [] |} |}.

End App.

Import App.

(** * Vocabulary of the statements *)

Module Statements.


(** What [renderRepos] leaves in the repo region for an array whose entries
    are all repo objects. *)
Definition shownRepos (repos : option (list Repo)) : jsstring :=
  reposContainer_innerHTML
    (dom (renderRepos (option_map (map Some) repos) initial)).

(** The cards of the entries that pass the validation, in input order. *)
Definition validCards (repos : list Repo) : list jsstring :=
  map repoCard (filter (fun r => negb (invalidRepo r)) repos).

(** The two entries of the spec's example: a complete repo and one that has
    a name but no url. *)
Definition repoA : Repo :=
  {| repo_url := Some (lit "a"); repo_name := Some (lit "A");
     repo_stars := None; repo_forks := None; repo_author := None;
     repo_language := None; repo_description := None |}.

Definition repoB : Repo :=
  {| repo_url := None; repo_name := Some (lit "B");
     repo_stars := None; repo_forks := None; repo_author := None;
     repo_language := None; repo_description := None |}.

(** The reading of "invalid" in the spec: both [url] and [name] missing. *)
Definition lacksBoth (repo : Repo) : bool :=
  falsy (repo_url repo) && falsy (repo_name repo).

(** The part of the page the autocomplete invariant speaks about. *)
Definition view (w : World)
  : list Suggestion * Z * bool * jsstring * list Item :=
  (autocompleteSuggestions (vars w), selectedSuggestionIndex (vars w),
   dropdown_visible (dom w), dropdown_innerHTML (dom w),
   dropdown_items (dom w)).


Definition selected (w : World) : Z := selectedSuggestionIndex (vars w).




Definition suggestionOf (title : string) : Suggestion :=
  {| suggestion_title := lit title;
     suggestion_year := None;
     suggestion_category := None |}.


(** The suggestion request [id] is awaiting its response. *)
Definition pending (id : nat) (w : World) : bool :=
  existsb (fun r => Nat.eqb (request_id r) id && isSuggestions (request_url r))
          (inflight (loop w)).

(** What the user sees outside the dropdown: the two result regions. *)
Definition results (w : World) : jsstring * jsstring :=
  (videosContainer_innerHTML (dom w), reposContainer_innerHTML (dom w)).

Definition settle (id : nat) (outcome : Settled (option (list Suggestion)))
  (w : World) : World :=
  step w (SuggestionsSettle id outcome).

(** A page whose dropdown shows one suggestion for "ab", with a second
    request, for "abc", in flight. *)
Definition shownWithRequestInFlight : World :=
  run initial
      [Input (lit "ab"); Elapse 300;
       SuggestionsSettle 1 (Ok (Some [suggestionOf "ab one"]));
       Input (lit "abc"); Elapse 300].

(** The stale-response scenario of the spec: the request for "abc" is in
    flight, a request for "abcd" is armed and completes, then the response
    for "abc" arrives. *)
Definition staleResponseArrives : World :=
  run initial
      [Input (lit "abc"); Elapse 300;
       Input (lit "abcd"); Elapse 300;
       SuggestionsSettle 2 (Ok (Some [suggestionOf "abcd paper"]));
       SuggestionsSettle 1 (Ok (Some [suggestionOf "abc paper"]))].

Definition isLoad (t : Timer) : bool :=
  match timer_callback t with
  | LoadSuggestions _ => true
  | ScrollToResults => false
  end.

(** The requests a list of timeouts issues when they run in that order. *)
Definition loads (ts : list Timer) : list Url :=
  flat_map (fun t =>
              match timer_callback t with
              | LoadSuggestions query => [SuggestionsUrl query]
              | ScrollToResults => []
              end) ts.

(** The pending timeouts of [handleSearchInput]. *)
Definition debounce (w : World) : list Timer :=
  filter isLoad (timers (loop w)).

(** Timer identifiers are fresh, and a pending timeout of
    [handleSearchInput] is the one [autocompleteDebounceTimer] names. *)
Definition TimerInv (w : World) : Prop :=
  Forall (fun t => timer_id t < nextTimer (loop w)) (timers (loop w)) /\
  Forall (fun t => isLoad t = true ->
                   autocompleteDebounceTimer (vars w) = Some (timer_id t))
         (timers (loop w)) /\
  NoDup (map timer_id (timers (loop w))).

(** The part of the page [TimerInv] and [debounce] speak about, with the
    requests issued so far. *)
Definition tview (w : World)
  : option nat * list Timer * nat * nat * list Url :=
  (autocompleteDebounceTimer (vars w), timers (loop w), nextTimer (loop w),
   now (loop w), fetched (loop w)).

Definition dueBy (deadline : nat) (t : Timer) : bool :=
  timer_due t <=? deadline.

(** The timeout an input event arms, if its trimmed value has two
    characters or more. *)
Definition armed (v : jsstring) (id start : nat) : list Timer :=
  if List.length (trim v) <? 2 then []
  else [{| timer_id := id; timer_due := start + 300;
           timer_callback := LoadSuggestions (trim v) |}].







End Statements.

Import Statements.

(** * More of the script

    The builtins the handlers lean on ([encodeURIComponent], [parseInt]) and
    the text of the URLs they fetch. *)

Module Uri.

Local Open Scope N_scope.

(** The characters [encodeURIComponent] leaves alone: letters, digits and
    [- _ . ! ~ * ' ( )]. *)
Definition unreserved (c : char16) : bool :=
  (65 <=? c) && (c <=? 90) || (97 <=? c) && (c <=? 122)
  || (48 <=? c) && (c <=? 57)
  || (c =? 45) || (c =? 95) || (c =? 46) || (c =? 33) || (c =? 126)
  || (c =? 42) || (c =? 39) || (c =? 40) || (c =? 41).

Definition hexDigit (n : N) : char16 :=
  if n <? 10 then 48 + n else 55 + n.

(** One octet as a percent sign and two upper-case hexadecimal digits. *)
Definition percent (octet : N) : jsstring :=
  [37; hexDigit (octet / 16); hexDigit (octet mod 16)].

(** The UTF-8 octets of a code point. *)
Definition utf8 (cp : N) : list N :=
  if cp <? 128 then [cp]
  else if cp <? 2048 then [192 + cp / 64; 128 + cp mod 64]
  else if cp <? 65536 then
    [224 + cp / 4096; 128 + (cp / 64) mod 64; 128 + cp mod 64]
  else
    [240 + cp / 262144; 128 + (cp / 4096) mod 64; 128 + (cp / 64) mod 64;
     128 + cp mod 64].

(** [encodeURIComponent]: [None] is the [URIError] it throws on a surrogate
    code unit that has no partner. *)
Fixpoint encodeURIComponent (s : jsstring) : option jsstring :=
  match s with
  | [] => Some []
  | c :: r =>
      if unreserved c then option_map (cons c) (encodeURIComponent r)
      else if (c <? 55296) || (57343 <? c) then
        option_map (app (flat_map percent (utf8 c))) (encodeURIComponent r)
      else if c <? 56320 then
        match r with
        | d :: r' =>
            if (56320 <=? d) && (d <=? 57343) then
              option_map
                (app (flat_map percent
                        (utf8 (65536 + (c - 55296) * 1024 + (d - 56320)))))
                (encodeURIComponent r')
            else None
        | [] => None
        end
      else None
  end.

(** The text of the URL the script builds for a request: the template
    literals of [loadAutocompleteSuggestions] and [performSearch]. *)
Definition urlText (url : Url) : option jsstring :=
  match url with
  | SuggestionsUrl query =>
      option_map (app (lit "/api/search-suggestions?q="))
                 (encodeURIComponent query)
  | SearchUrl query category =>
      match encodeURIComponent query, category with
      | Some q, None => Some (lit "/api/search?q=" ++ q)
      | Some q, Some cat =>
          option_map (fun c => lit "/api/search?q=" ++ q
                               ++ lit "&category=" ++ c)
                     (encodeURIComponent cat)
      | None, _ => None
      end
  end.





End Uri.

Import Uri.

Module MoreStatements.

(** The characters a formatted count is made of: digits, the point, the
    sign and exponent marks, and the letters of the suffixes and of
    [Infinity] and [NaN]. *)
Definition numberChar (c : char16) : bool :=
  ((48 <=? c) && (c <=? 57))%N
  || existsb (N.eqb c) (lit "-.+eKMNaInfity").


(** The four characters [escapeHtml] replaces. *)
Definition special (c : char16) : bool :=
  ((c =? 38) || (c =? 160) || (c =? 60) || (c =? 62))%N.

Definition startsWithSpace (s : jsstring) : bool :=
  match s with
  | c :: _ => isWhiteSpace c
  | [] => false
  end.

(** A character is left as it is in a URL, or is part of a percent
    escape. *)
Definition urlSafe (c : char16) : bool := unreserved c || (c =? 37)%N.

(** Every element is a UTF-16 code unit. *)
Definition codeUnits (s : jsstring) : bool :=
  forallb (fun c => (c <? 65536)%N) s.

Definition urlUnits (url : Url) : bool :=
  match url with
  | SuggestionsUrl query => codeUnits query
  | SearchUrl query None => codeUnits query
  | SearchUrl query (Some category) => codeUnits query && codeUnits category
  end.

Definition hasCategory (url : Url) : bool :=
  match url with
  | SearchUrl _ (Some _) => true
  | _ => false
  end.


Definition countChar (c : char16) (s : jsstring) : nat :=
  count_occ N.eq_dec s c.


(** The suggestion requests issued so far, in order. *)
Definition suggestionRequests (w : World) : list Url :=
  filter isSuggestions (fetched (loop w)).

(** An input event whose trimmed value has two code units or more. *)
Definition qualifying (e : Event) : bool :=
  match e with
  | Input value => negb (List.length (trim value) <? 2)
  | _ => false
  end.

(** The events that come from the keyboard, the mouse, the form and the
    network: every event but typing and the passing of time. *)
Definition interaction (e : Event) : bool :=
  match e with
  | Input _ | Elapse _ => false
  | _ => true
  end.

(** What the debounce is about: the pending timeouts of
    [handleSearchInput], the suggestion requests issued, the clock and the
    timer variable. *)
Definition dview (w : World)
  : list Timer * list Url * nat * option nat :=
  (debounce w, suggestionRequests w, now (loop w),
   autocompleteDebounceTimer (vars w)).

(** A query as [handleSearchInput] passes it on: trimmed, and of two code
    units or more. *)
Definition trimmedQuery (query : jsstring) : Prop :=
  2 <= List.length query /\ trim query = query.

Definition requestQuery (url : Url) : jsstring :=
  match url with
  | SuggestionsUrl query => query
  | SearchUrl query _ => query
  end.

(** The invariant behind the next property: the queries waiting on the
    timer and the queries requested are trimmed and long enough. *)
Definition TrimmedQueries (w : World) : Prop :=
  Forall (fun t => forall q, timer_callback t = LoadSuggestions q ->
                             trimmedQuery q) (debounce w) /\
  Forall (fun u => trimmedQuery (requestQuery u)) (suggestionRequests w).


End MoreStatements.

Import MoreStatements.

(** ** The sidebar: categories, years and popular papers *)

Module Sidebar.


(** A [.category-item] element that [renderCategories] gave a click
    listener: its [data-category] attribute and whether its class list has
    [active] and [loading]. *)
Record CategoryItem := {
  citem_category : jsstring;
  citem_active : bool;
  citem_loading : bool
}.

(** The sidebar's module-level variables and DOM nodes, the URLs of the
    popular-papers requests issued, and what it logged. *)
Record Side := {
  categories : list jsstring;
  availableYears : list Z;
  currentYear : option jsstring;
  categoryList_innerHTML : jsstring;
  categoryItems : list CategoryItem;
  currentCategoryTitle : jsstring;
  yearSelect_innerHTML : jsstring;
  popularPapers_innerHTML : jsstring;
  papersFetched : list jsstring;
  sideConsole : list LogEntry
}.

(** The whole page: the part of module [App] and the sidebar, which share
    [currentCategory]. *)
Record Shell := {
  page : World;
  side : Side
}.



Definition withYears (l : list Z) (html : jsstring) (s : Side) : Side :=
  {| categories := categories s;
     availableYears := l;
     currentYear := currentYear s;
     categoryList_innerHTML := categoryList_innerHTML s;
     categoryItems := categoryItems s;
     currentCategoryTitle := currentCategoryTitle s;
     yearSelect_innerHTML := html;
     popularPapers_innerHTML := popularPapers_innerHTML s;
     papersFetched := papersFetched s;
     sideConsole := sideConsole s |}.





Definition withSideLog (entry : LogEntry) (s : Side) : Side :=
  {| categories := categories s;
     availableYears := availableYears s;
     currentYear := currentYear s;
     categoryList_innerHTML := categoryList_innerHTML s;
     categoryItems := categoryItems s;
     currentCategoryTitle := currentCategoryTitle s;
     yearSelect_innerHTML := yearSelect_innerHTML s;
     popularPapers_innerHTML := popularPapers_innerHTML s;
     papersFetched := papersFetched s;
     sideConsole := sideConsole s ++ [entry] |}.

(** *** Popular papers *)







(** *** Categories *)








(** *** Years *)

(** [renderYearSelector]: a year is a number and [currentYear] a string or
    [null], so [year === currentYear] is false and no option is marked
    [selected]. *)
Definition yearOption (year : Z) : jsstring :=
  lit "<option value=" ++ dq ++ decimalZ year ++ dq ++ lit " " ++ []
  ++ lit ">" ++ decimalZ year ++ lit "</option>".

Definition yearSelectorHtml (years : list Z) : jsstring :=
  lit "<option value=" ++ dq ++ dq ++ lit ">All Years</option>"
  ++ List.concat (map yearOption years).

(** [loadYears] from the point its awaits settle: a failure is logged and
    leaves the selector as it was. *)
Definition loadYears_resume (outcome : Settled (option (list Z)))
  (sh : Shell) : Shell :=
  match outcome with
  | Ok data =>
      let l := match data with Some l => l | None => [] end in
      {| page := page sh; side := withYears l (yearSelectorHtml l) (side sh) |}
  | _ =>
      {| page := page sh;
         side := withSideLog (ConsoleError (lit "Error loading years:"))
                             (side sh) |}
  end.


(** A search submitted from the form, on the whole page. *)
Definition submit (sh : Shell) : Shell :=
  {| page := step (page sh) Submit; side := side sh |}.

End Sidebar.

Import Sidebar.

Module SidebarStatements.








End SidebarStatements.

Import SidebarStatements.

(** * Properties *)

(** ** [escapeHtml] *)

Section EscapeHtml.

Local Open Scope N_scope.

Lemma escapeChar_cases (c : char16) :
  (c = 38 /\ escapeChar c = lit "&amp;") \/
  (c = 160 /\ escapeChar c = lit "&nbsp;") \/
  (c = 60 /\ escapeChar c = lit "&lt;") \/
  (c = 62 /\ escapeChar c = lit "&gt;") \/
  (c <> 38 /\ c <> 160 /\ c <> 60 /\ c <> 62 /\ escapeChar c = [c]).
Proof.
  unfold escapeChar.
  destruct (N.eqb_spec c 38) as [-> | H38]; [now left |].
  destruct (N.eqb_spec c 160) as [-> | H160]; [now right; left |].
  destruct (N.eqb_spec c 60) as [-> | H60]; [now right; right; left |].
  destruct (N.eqb_spec c 62) as [-> | H62]; [now right; right; right; left |].
  now right; right; right; right.
Qed.

Lemma escapeHtml_cons (c : char16) (text : jsstring) :
  escapeHtml (c :: text) = escapeChar c ++ escapeHtml text.
Proof. reflexivity. Qed.

Lemma escapeHtml_app (a b : jsstring) :
  escapeHtml (a ++ b) = escapeHtml a ++ escapeHtml b.
Proof. unfold escapeHtml. apply flat_map_app. Qed.







End EscapeHtml.

(** ** [formatNumber] *)

Section FormatNumber.

Local Open Scope N_scope.

Lemma digitsN_acc (fuel : nat) (n : N) (acc : jsstring) :
  digitsN fuel n acc = digitsN fuel n [] ++ acc.
Proof.
  revert n acc. induction fuel as [| fuel IH]; intros n acc; [reflexivity |].
  cbn [digitsN]. destruct (n <? 10); [reflexivity |].
  rewrite IH. rewrite (IH _ [_]). now rewrite <- app_assoc.
Qed.

Lemma digitsN_fuel (f f' : nat) (n : N) (acc : jsstring) :
  n < 2 ^ N.of_nat (S f) -> n < 2 ^ N.of_nat (S f') ->
  digitsN (S f) n acc = digitsN (S f') n acc.
Proof.
  revert f' n acc. induction f as [| f IH]; intros f' n acc Hf Hf'.
  - change (2 ^ N.of_nat 1) with 2 in Hf.
    cbn [digitsN]. now replace (n <? 10) with true by (symmetry; apply N.ltb_lt; lia).
  - cbn [digitsN]. destruct (N.ltb_spec n 10) as [Hn | Hn]; [reflexivity |].
    destruct f' as [| f'].
    + change (2 ^ N.of_nat 1) with 2 in Hf'. lia.
    + rewrite Nat2N.inj_succ, N.pow_succ_r' in Hf, Hf'.
      apply IH.
      * apply N.Div0.div_lt_upper_bound. lia.
      * apply N.Div0.div_lt_upper_bound. lia.
Qed.

Lemma decimalN_bound (n : N) : n < 2 ^ N.of_nat (S (N.to_nat (N.log2 n))).
Proof.
  rewrite Nat2N.inj_succ, N2Nat.id.
  destruct n as [| p]; [reflexivity |].
  apply N.log2_spec. reflexivity.
Qed.

Lemma decimalN_small (n : N) : n < 10 -> decimalN n = [48 + n].
Proof.
  intros H. unfold decimalN. cbn [digitsN].
  apply N.ltb_lt in H as Hb. rewrite Hb.
  now rewrite N.mod_small.
Qed.

Lemma decimalN_step (n : N) :
  10 <= n -> decimalN n = decimalN (n / 10) ++ [48 + n mod 10].
Proof.
  intros H. unfold decimalN at 1. cbn [digitsN].
  apply N.ltb_ge in H as Hb. rewrite Hb.
  rewrite digitsN_acc. f_equal.
  pose proof (decimalN_bound n) as Hn.
  remember (N.to_nat (N.log2 n)) as f eqn:Ef.
  destruct f as [| f].
  - change (2 ^ N.of_nat 1) with 2 in Hn. lia.
  - unfold decimalN. apply digitsN_fuel.
    + rewrite Nat2N.inj_succ, N.pow_succ_r' in Hn.
      apply N.Div0.div_lt_upper_bound. lia.
    + apply decimalN_bound.
Qed.

Lemma decimalN_nonempty (n : N) : decimalN n <> [].
Proof.
  destruct (N.lt_ge_cases n 10) as [H | H].
  - now rewrite decimalN_small.
  - rewrite decimalN_step by assumption. now destruct (decimalN (n / 10)).
Qed.

(** [toFixed] places the point before the last digit: the integer part of
    the tenths, a point, the last digit. *)
Lemma placePoint_tenths (t : N) :
  placePoint t = decimalN (t / 10) ++ lit "." ++ decimalN (t mod 10).
Proof.
  unfold placePoint.
  destruct (N.lt_ge_cases t 10) as [H | H].
  - rewrite N.div_small, N.mod_small by assumption.
    rewrite (decimalN_small H). reflexivity.
  - rewrite (decimalN_step H).
    assert (Hd : decimalN (t mod 10) = [48 + t mod 10]).
    { apply decimalN_small. apply N.mod_lt. discriminate. }
    rewrite Hd. generalize (48 + t mod 10). intros z.
    pose proof (decimalN_nonempty (t / 10)) as Hne.
    remember (decimalN (t / 10)) as d eqn:Ed.
    destruct d as [| c d]; [contradiction |].
    replace (List.length ((c :: d) ++ [z]) <=? 1)%nat with false
      by (symmetry; apply Nat.leb_gt; rewrite length_app; cbn; lia).
    replace (List.length ((c :: d) ++ [z]) - 1)%nat
      with (List.length (c :: d) + 0)%nat
      by (rewrite length_app; cbn; lia).
    rewrite firstn_app_2, skipn_app, Nat.add_0_r, Nat.sub_diag, skipn_all.
    cbn [firstn skipn]. now rewrite app_nil_r.
Qed.

Local Open Scope Z_scope.

(** [nearestTenths] rounds ten times the value to the nearest integer, a
    half upwards: for [x = m / 2^p], [t - 1/2 <= 10 x < t + 1/2]. *)
Lemma nearestTenths_half_up (m p : positive) :
  let t := Z.of_N (nearestTenths m (Zneg p)) in
  (2 * t - 1) * 2 ^ Zpos p <= 20 * Zpos m < (2 * t + 1) * 2 ^ Zpos p.
Proof.
  cbn zeta. unfold nearestTenths.
  assert (Hp : 0 < 2 ^ Zpos p) by (apply Z.pow_pos_nonneg; lia).
  rewrite Z.pow_add_r, Z.pow_1_r by lia.
  set (d := 2 ^ Zpos p) in *.
  assert (Hq : 0 <= (20 * Zpos m + d) / (d * 2))
    by (apply Z.div_pos; lia).
  rewrite Z2N.id by assumption.
  pose proof (Z.div_mod (20 * Zpos m + d) (d * 2) ltac:(lia)) as Hdm.
  pose proof (Z.mod_pos_bound (20 * Zpos m + d) (d * 2) ltac:(lia)) as Hb.
  nia.
Qed.

Lemma nearestTenths_exact (m : positive) (e : Z) :
  0 <= e -> Z.of_N (nearestTenths m e) = 10 * Zpos m * 2 ^ e.
Proof.
  intros He. unfold nearestTenths.
  assert (H : 0 <= 10 * Zpos m * 2 ^ e)
    by (apply Z.mul_nonneg_nonneg; [lia | apply Z.pow_nonneg; lia]).
  destruct e as [| q | q]; try lia; now rewrite Z2N.id.
Qed.

(** [toFixed(1)] of a positive value below [10^21] is the value to one
    decimal place: the integer part and the last digit of its tenths. *)
Lemma toFixed1_one_decimal (m : positive) (e : Z) :
  Zpos m * 2 ^ e < 10 ^ 21 ->
  toFixed1 (S754_finite false m e)
  = decimalN (nearestTenths m e / 10) ++ lit "."
    ++ decimalN (nearestTenths m e mod 10).
Proof.
  intros H. unfold toFixed1.
  apply Z.leb_gt in H. rewrite H. cbn [app].
  apply placePoint_tenths.
Qed.





(** The one decimal place is the nearest tenth of the binary64 quotient, a
    half upwards: 1.05 is stored just above the half and 1.15 just below
    it, 1.25 is stored exactly. *)
Example formatNumber_rounding :
  map formatNumber [1050; 1150; 1250; 999949; 999999; 12345678]
  = [lit "1.1K"; lit "1.1K"; lit "1.3K"; lit "999.9K"; lit "1000.0K";
     lit "12.3M"].
Proof. vm_compute. reflexivity. Qed.

End FormatNumber.

(** ** [renderRepos] *)

Section RenderRepos.

(** [renderRepos] assigns the rendered text to the repo region, whatever
    the page held before. *)
Lemma renderRepos_assigns (repos : option (list (option Repo))) (w : World) :
  reposContainer_innerHTML (dom (renderRepos repos w)) = snd (reposHtml repos).
Proof. unfold renderRepos. now destruct (reposHtml repos). Qed.

Lemma repoCard_head (repo : Repo) : exists rest, repoCard repo = 10%N :: rest.
Proof. unfold repoCard, line, nl. cbn [app]. eexists. reflexivity. Qed.

Lemma repoCard_truthy (repo : Repo) : truthy (repoCard repo) = true.
Proof. destruct (repoCard_head repo) as [rest ->]. reflexivity. Qed.

Lemma mapRepos_objects (repos : list Repo) :
  snd (mapRepos (map Some repos))
  = Some (map (fun r => if invalidRepo r then [] else repoCard r) repos).
Proof.
  induction repos as [| r repos IH]; [reflexivity |].
  cbn [map mapRepos].
  destruct (mapRepos (map Some repos)) as [warns htmls]. cbn [snd] in IH.
  subst htmls. now destruct (invalidRepo r).
Qed.

Lemma filter_cards (repos : list Repo) :
  filter truthy (map (fun r => if invalidRepo r then [] else repoCard r) repos)
  = validCards repos.
Proof.
  unfold validCards.
  induction repos as [| r repos IH]; [reflexivity |].
  cbn [map filter]. destruct (invalidRepo r); cbn [negb truthy].
  - exact IH.
  - rewrite repoCard_truthy. cbn [map]. now rewrite IH.
Qed.

Lemma concat_cards_head (repos : list Repo) :
  validCards repos <> [] ->
  exists rest, List.concat (validCards repos) = 10%N :: rest.
Proof.
  unfold validCards.
  destruct (filter _ repos) as [| r valid]; [contradiction |].
  intros _. cbn [map List.concat].
  destruct (repoCard_head r) as [rest ->]. eexists. reflexivity.
Qed.

(** The three outcomes of [renderRepos] on an array of repo objects. *)
Lemma shownRepos_cases (repos : list Repo) :
  shownRepos (Some repos)
  = match repos with
    | [] => emptyState "No code implementations found"
    | _ :: _ =>
        match validCards repos with
        | [] => emptyState "No valid code implementations found"
        | _ :: _ => List.concat (validCards repos)
        end
    end.
Proof.
  unfold shownRepos. rewrite renderRepos_assigns.
  destruct repos as [| r repos]; [reflexivity |].
  unfold reposHtml. cbn [option_map].
  change (map Some (r :: repos)) with (Some r :: map Some repos).
  pose proof (mapRepos_objects (r :: repos)) as H.
  change (map Some (r :: repos)) with (Some r :: map Some repos) in H.
  destruct (mapRepos (Some r :: map Some repos)) as [warns htmls].
  cbn [snd] in H. subst htmls. rewrite filter_cards.
  remember (validCards (r :: repos)) as cards eqn:E.
  destruct cards as [| c cards]; [reflexivity |].
  destruct (concat_cards_head (r :: repos)) as [rest Hrest];
    [rewrite <- E; discriminate |].
  rewrite <- E in Hrest. rewrite Hrest. reflexivity.
Qed.

Lemma validCards_nil (repos : list Repo) :
  validCards repos = [] <-> forallb invalidRepo repos = true.
Proof.
  unfold validCards.
  induction repos as [| r repos IH]; [easy |].
  cbn [filter forallb]. destruct (invalidRepo r); cbn [negb andb map].
  - exact IH.
  - split; discriminate.
Qed.

(** C3, as stated, fails: on [[{url:"a",name:"A"}, {name:"B"}]] the second
    entry does not lack both [url] and [name], yet it is dropped, so the
    page is not the cards of the entries that have one of the two. *)
Lemma renderRepos_drops_entry_with_name_only :
  lacksBoth repoB = false /\
  shownRepos (Some [repoA; repoB]) = repoCard repoA /\
  shownRepos (Some [repoA; repoB])
  <> List.concat
       (map repoCard (filter (fun r => negb (lacksBoth r)) [repoA; repoB])).
Proof.
  split; [reflexivity |]. split.
  - rewrite shownRepos_cases.
    change (validCards [repoA; repoB]) with [repoCard repoA].
    cbn [List.concat]. apply app_nil_r.
  - rewrite shownRepos_cases. intros H.
    apply (f_equal (@List.length _)) in H. vm_compute in H. discriminate H.
Qed.

(** C3 (amended).  [renderRepos] drops exactly the entries that lack [url]
    or [name] (either one missing or empty) and renders one card per
    remaining repo, in input order; [[{url:"a",name:"A"}, {name:"B"}]]
    renders the single card of "A". *)
Theorem renderRepos_keeps_valid_in_order :
  (forall repos : list Repo,
     shownRepos (Some repos)
     = match repos,
             filter (fun r => negb (falsy (repo_url r) || falsy (repo_name r)))
                    repos with
       | [], _ => emptyState "No code implementations found"
       | _, [] => emptyState "No valid code implementations found"
       | _, kept => List.concat (map repoCard kept)
       end) /\
  shownRepos (Some [repoA; repoB]) = List.concat (map repoCard [repoA]).
Proof.
  split.
  - intros repos. rewrite shownRepos_cases. unfold validCards, invalidRepo.
    destruct repos as [| r repos]; [reflexivity |].
    now destruct (filter _ (r :: repos)).
  - rewrite shownRepos_cases. reflexivity.
Qed.

(** C4.  [renderRepos] shows "No code implementations found" exactly when
    the collection is absent or empty, and "No valid code implementations
    found" exactly when it is nonempty and every entry fails the validation;
    the two messages differ. *)
Theorem renderRepos_empty_states (repos : option (list Repo)) :
  (shownRepos repos = emptyState "No code implementations found"
   <-> repos = None \/ repos = Some []) /\
  (shownRepos repos = emptyState "No valid code implementations found"
   <-> exists l, repos = Some l /\ l <> [] /\ forallb invalidRepo l = true) /\
  emptyState "No code implementations found"
  <> emptyState "No valid code implementations found".
Proof.
  assert (Hdiff : emptyState "No code implementations found"
                  <> emptyState "No valid code implementations found")
    by (vm_compute; discriminate).
  assert (Hcards : forall l msg,
             validCards l <> [] ->
             List.concat (validCards l) <> emptyState msg).
  { intros l msg Hne H. destruct (concat_cards_head l Hne) as [rest Hrest].
    rewrite Hrest in H. discriminate H. }
  split; [| split; [| exact Hdiff]].
  - split.
    + destruct repos as [[| r l] |]; auto.
      rewrite shownRepos_cases. intros H. exfalso.
      remember (validCards (r :: l)) as cards eqn:E.
      destruct cards as [| c cards].
      * now apply Hdiff.
      * rewrite E in H. apply Hcards in H; [exact H |].
        rewrite <- E. discriminate.
    + intros [-> | ->]; reflexivity.
  - split.
    + destruct repos as [[| r l] |].
      * intros H. exfalso. now apply Hdiff.
      * rewrite shownRepos_cases. intros H.
        exists (r :: l). split; [reflexivity |]. split; [discriminate |].
        apply validCards_nil.
        remember (validCards (r :: l)) as cards eqn:E.
        destruct cards as [| c cards]; [reflexivity |].
        exfalso. rewrite E in H. apply Hcards in H; [exact H |].
        rewrite <- E. discriminate.
      * intros H. exfalso. now apply Hdiff.
    + intros (l & -> & Hne & Hall). rewrite shownRepos_cases.
      destruct l as [| r l]; [contradiction |].
      apply validCards_nil in Hall. now rewrite Hall.
Qed.

End RenderRepos.

(** ** The autocomplete dropdown *)

Section Autocomplete.

Local Open Scope Z_scope.


Lemma view_setLoop (f : Loop -> Loop) (w : World) : view (setLoop f w) = view w.
Proof. reflexivity. Qed.

Lemma view_fetch (url : Url) (w : World) : view (fetch url w) = view w.
Proof. reflexivity. Qed.

Lemma view_log (entries : list LogEntry) (w : World) :
  view (log entries w) = view w.
Proof. reflexivity. Qed.

Lemma view_clearTimeout (id : nat) (w : World) :
  view (clearTimeout id w) = view w.
Proof. reflexivity. Qed.


Lemma view_withInput (value : jsstring) (focused : Dom -> bool) (w : World) :
  view (setDom (fun d => withInput value (focused d) d) w) = view w.
Proof. reflexivity. Qed.








(** Dismissal clears the displayed rows and the stored state together. *)
Lemma hideAutocomplete_clears (w : World) :
  view (hideAutocomplete w) = ([], -1, false, [], []).
Proof. reflexivity. Qed.











(** *** Keyboard navigation *)












(** *** Completion of a suggestion request *)

Lemma settle_pending (id : nat) (outcome : Settled (option (list Suggestion)))
  (w : World) :
  pending id w = true ->
  exists w',
    takeRequest isSuggestions id w = Some w' /\
    view w' = view w /\ results w' = results w /\
    console (loop w') = console (loop w) /\
    settle id outcome w = loadAutocompleteSuggestions_resume outcome w'.
Proof.
  unfold pending, settle, step, takeRequest. intros ->.
  eexists. split; [reflexivity |]. now repeat split.
Qed.

(** C2, as stated, fails: the request for "abc" completes with a non-2xx
    status and the dropdown stays visible with the suggestion of "ab". *)
Lemma http_error_leaves_dropdown_shown :
  pending 2 shownWithRequestInFlight = true /\
  let w := settle 2 HttpError shownWithRequestInFlight in
  dropdown_visible (dom w) = true /\
  autocompleteSuggestions (vars w) = [suggestionOf "ab one"] /\
  dropdown_innerHTML (dom w) <> [].
Proof.
  split; [reflexivity |]. cbn zeta.
  split; [reflexivity |]. split; [reflexivity |].
  vm_compute. discriminate.
Qed.

(** C2 (amended).  When a suggestion request completes with a network error
    or an unreadable body, the failure is logged and the autocomplete goes
    idle (dropdown hidden, rows and suggestion list cleared); when it
    succeeds with an empty or missing suggestion list the autocomplete goes
    idle; when it completes with a non-2xx status nothing is logged and the
    autocomplete is left as it was.  In every one of these cases the result
    regions are untouched: no error is shown to the user. *)
Theorem suggestion_failure_is_silent (w : World) (id : nat) :
  pending id w = true ->
  (forall message outcome,
     outcome = NetworkError message \/ outcome = BadJson message ->
     let w' := settle id outcome w in
     view w' = ([], -1, false, [], []) /\
     console (loop w')
     = console (loop w)
       ++ [ConsoleError (lit "Error loading autocomplete suggestions:")] /\
     results w' = results w) /\
  (forall outcome,
     outcome = Ok None \/ outcome = Ok (Some []) ->
     let w' := settle id outcome w in
     view w' = ([], -1, false, [], []) /\
     console (loop w') = console (loop w) /\
     results w' = results w) /\
  (let w' := settle id HttpError w in
   view w' = view w /\
   console (loop w') = console (loop w) /\
   results w' = results w).
Proof.
  intros Hp. split; [| split].
  - intros message outcome Ho. cbn zeta.
    destruct (settle_pending id outcome w Hp) as (w0 & _ & _ & Hr & Hc & ->).
    destruct Ho as [-> | ->]; cbn; rewrite Hc;
      (split; [reflexivity |]); (split; [reflexivity |]); exact Hr.
  - intros outcome Ho. cbn zeta.
    destruct (settle_pending id outcome w Hp) as (w0 & _ & _ & Hr & Hc & ->).
    destruct Ho as [-> | ->]; cbn;
      (split; [reflexivity |]); (split; [exact Hc | exact Hr]).
  - cbn zeta.
    destruct (settle_pending id HttpError w Hp)
      as (w0 & _ & Hv & Hr & Hc & ->).
    cbn. auto.
Qed.

Lemma suggestion_failure_is_silent_witness :
  view (settle 2 HttpError shownWithRequestInFlight)
  = view shownWithRequestInFlight.
Proof.
  assert (Hp : pending 2 shownWithRequestInFlight = true) by reflexivity.
  destruct (suggestion_failure_is_silent shownWithRequestInFlight 2 Hp)
    as (_ & _ & H & _).
  exact H.
Defined.

(** C1, as stated, fails: after the late response for "abc" the page shows
    the suggestions of "abc", not those of the newer request "abcd". *)
Lemma stale_response_is_displayed :
  fetched (loop staleResponseArrives)
  = [SuggestionsUrl (lit "abc"); SuggestionsUrl (lit "abcd")] /\
  autocompleteSuggestions (vars staleResponseArrives)
  = [suggestionOf "abc paper"] /\
  autocompleteSuggestions (vars staleResponseArrives)
  <> [suggestionOf "abcd paper"] /\
  dropdown_innerHTML (dom staleResponseArrives)
  = List.concat (suggestionRows [suggestionOf "abc paper"] 0) /\
  dropdown_visible (dom staleResponseArrives) = true.
Proof.
  split; [reflexivity |]. split; [reflexivity |].
  split; [intros H; vm_compute in H; discriminate H |].
  split; reflexivity.
Qed.

(** C1 (amended).  The page keeps no record of which suggestion request is
    the latest: whenever the response of any request still in flight
    arrives with a nonempty suggestion list, the stored suggestions, the
    displayed rows and the selection become those of that response,
    whichever requests were armed or completed in the meantime.  The
    autocomplete state reflects the response that arrived last. *)
Theorem suggestion_response_always_applies
  (w : World) (id : nat) (s : Suggestion) (l : list Suggestion) :
  pending id w = true ->
  view (settle id (Ok (Some (s :: l))) w)
  = (s :: l, -1, true, List.concat (suggestionRows (s :: l) 0),
     parseRows (s :: l) 0).
Proof.
  intros Hp.
  destruct (settle_pending id (Ok (Some (s :: l))) w Hp)
    as (w0 & _ & _ & _ & _ & ->).
  reflexivity.
Qed.

Lemma suggestion_response_always_applies_witness :
  autocompleteSuggestions
    (vars (settle 2 (Ok (Some [suggestionOf "late"]))
                  shownWithRequestInFlight))
  = [suggestionOf "late"].
Proof.
  assert (Hp : pending 2 shownWithRequestInFlight = true) by reflexivity.
  pose proof (suggestion_response_always_applies
                shownWithRequestInFlight 2 (suggestionOf "late") [] Hp) as H.
  exact (f_equal (fun v => fst (fst (fst (fst v)))) H).
Defined.

End Autocomplete.

(** ** The debounce timer *)


Section Debounce.

Lemma TimerInv_tview (w w' : World) :
  tview w' = tview w -> TimerInv w -> TimerInv w'.
Proof.
  unfold tview, TimerInv. intros E H. injection E as -> -> -> _ _. exact H.
Qed.

(** Cancelling or running timeouts leaves the identifiers of the others
    distinct. *)
Lemma distinct_ids_filter (keep : Timer -> bool) (ts : list Timer) :
  NoDup (map timer_id ts) -> NoDup (map timer_id (filter keep ts)).
Proof.
  induction ts as [| t ts IH]; intros H; [exact H |].
  cbn [map] in H. apply NoDup_cons_iff in H as [Hfresh Hrest].
  cbn [filter]. destruct (keep t); [| now apply IH].
  cbn [map]. apply NoDup_cons; [| now apply IH].
  intros Hin. apply Hfresh. apply in_map_iff in Hin as (u & <- & Hu).
  apply filter_In in Hu as [Hu _]. now apply in_map.
Qed.

(** Dropping timeouts keeps the invariant. *)
Lemma TimerInv_filter (p : Timer -> bool) (w w' : World) :
  autocompleteDebounceTimer (vars w') = autocompleteDebounceTimer (vars w) ->
  timers (loop w') = filter p (timers (loop w)) ->
  nextTimer (loop w') = nextTimer (loop w) ->
  TimerInv w -> TimerInv w'.
Proof.
  intros Hh Ht Hn (H1 & H2 & H3). unfold TimerInv. rewrite Hh, Ht, Hn.
  repeat split.
  - rewrite Forall_forall in *. intros t Hin.
    apply filter_In in Hin as [Hin _]. now apply H1.
  - rewrite Forall_forall in *. intros t Hin.
    apply filter_In in Hin as [Hin _]. now apply H2.
  - now apply distinct_ids_filter.
Qed.

Lemma Forall_fresh (n : nat) (ts : list Timer) :
  Forall (fun t => timer_id t < n) ts -> ~ In n (map timer_id ts).
Proof.
  intros H Hin. apply in_map_iff in Hin as (t & Ht & Hin).
  rewrite Forall_forall in H. specialize (H t Hin). lia.
Qed.

(** Arming a timeout that is not a debounce timeout keeps the invariant. *)
Lemma TimerInv_scroll (w : World) :
  TimerInv w -> TimerInv (snd (setTimeout ScrollToResults 100 w)).
Proof.
  intros (H1 & H2 & H3). unfold TimerInv. cbn.
  repeat split.
  - apply Forall_app. split.
    + eapply Forall_impl; [| exact H1]. cbn. intros t Ht. lia.
    + constructor; [cbn; lia | constructor].
  - apply Forall_app. split; [exact H2 |].
    constructor; [discriminate | constructor].
  - rewrite map_app. cbn [map].
    apply NoDup_app_remove_l with (l := []). cbn [app].
    apply Permutation_NoDup with (l := nextTimer (loop w)
                                        :: map timer_id (timers (loop w))).
    + apply Permutation_cons_append.
    + apply NoDup_cons; [now apply Forall_fresh | exact H3].
Qed.

Lemma loads_cons (t : Timer) (ts : list Timer) :
  loads (t :: ts) = loads [t] ++ loads ts.
Proof. unfold loads. cbn [flat_map]. now rewrite app_nil_r. Qed.

Lemma tview_fire (t : Timer) (w : World) :
  tview (fire t w)
  = (autocompleteDebounceTimer (vars w), timers (loop w), nextTimer (loop w),
     now (loop w), fetched (loop w) ++ loads [t]).
Proof.
  unfold fire, loads, tview. cbn [flat_map].
  destruct (timer_callback t); cbn; now rewrite ?app_nil_r.
Qed.

Lemma tview_fold_fire (ts : list Timer) (w : World) :
  tview (fold_left (fun w t => fire t w) ts w)
  = (autocompleteDebounceTimer (vars w), timers (loop w), nextTimer (loop w),
     now (loop w), fetched (loop w) ++ loads ts).
Proof.
  revert w. induction ts as [| t ts IH]; intros w.
  - cbn. now rewrite app_nil_r.
  - cbn [fold_left]. rewrite IH.
    pose proof (tview_fire t w) as H. unfold tview in H.
    injection H as H1 H2 H3 H4 H5. rewrite H1, H2, H3, H4, H5.
    rewrite (loads_cons t ts). unfold loads. cbn [flat_map].
    now rewrite <- !app_assoc.
Qed.

Lemma tview_elapse (ms : nat) (w : World) :
  tview (elapse ms w)
  = (autocompleteDebounceTimer (vars w),
     filter (fun t => negb (dueBy (now (loop w) + ms) t)) (timers (loop w)),
     nextTimer (loop w),
     now (loop w) + ms,
     fetched (loop w)
     ++ loads (sortByDue (filter (dueBy (now (loop w) + ms))
                                 (timers (loop w))))).
Proof.
  unfold elapse.
  change (fun t => timer_due t <=? now (loop w) + ms)
    with (dueBy (now (loop w) + ms)).
  rewrite partition_as_filter. now rewrite tview_fold_fire.
Qed.

Lemma insertByDue_perm (t : Timer) (ts : list Timer) :
  Permutation (insertByDue t ts) (t :: ts).
Proof.
  induction ts as [| u ts IH]; [reflexivity |].
  cbn [insertByDue]. destruct (_ <=? _); [| reflexivity].
  rewrite IH. apply perm_swap.
Qed.

Lemma sortByDue_perm (ts : list Timer) : Permutation (sortByDue ts) ts.
Proof.
  unfold sortByDue.
  enough (H : forall acc,
             Permutation
               (fold_left (fun sorted t => insertByDue t sorted) ts acc)
               (acc ++ ts))
    by apply (H []).
  induction ts as [| t ts IH]; intros acc.
  - cbn. now rewrite app_nil_r.
  - cbn [fold_left]. rewrite IH, insertByDue_perm.
    cbn [app]. apply Permutation_middle.
Qed.

Lemma loads_filter (ts : list Timer) : loads ts = loads (filter isLoad ts).
Proof.
  induction ts as [| t ts IH]; [reflexivity |].
  unfold loads, isLoad in *. cbn [flat_map filter].
  destruct (timer_callback t) eqn:E; cbn [flat_map app]; rewrite ?E;
    now rewrite IH.
Qed.

Lemma select_timers_comm (first second : Timer -> bool) (ts : list Timer) :
  filter first (filter second ts) = filter second (filter first ts).
Proof.
  induction ts as [| t ts IH]; [reflexivity |].
  cbn [filter]. destruct (first t) eqn:Hp, (second t) eqn:Hr; cbn [filter];
    rewrite ?Hp, ?Hr; now rewrite IH.
Qed.

(** The requests issued by the timeouts that are due come from the pending
    debounce timeouts that are due. *)
Lemma loads_due (deadline : nat) (w : World) :
  Permutation
    (loads (sortByDue (filter (dueBy deadline) (timers (loop w)))))
    (loads (filter (dueBy deadline) (debounce w))).
Proof.
  unfold debounce. rewrite select_timers_comm, <- loads_filter.
  unfold loads. apply Permutation_flat_map, sortByDue_perm.
Qed.

Lemma select_no_timer (chosen : Timer -> bool) (ts : list Timer) :
  (forall t, In t ts -> chosen t = false) -> filter chosen ts = [].
Proof.
  induction ts as [| t ts IH]; intros H; [reflexivity |].
  cbn [filter]. rewrite (H t (or_introl eq_refl)).
  apply IH. intros u Hu. apply H. now right.
Qed.

Lemma TimerInv_initial : TimerInv initial.
Proof. repeat split; constructor. Qed.

(** [handleSearchInput] first cancels the timeout its variable names: no
    debounce timeout is left pending. *)
Lemma cancel_clears_debounce (w : World) :
  TimerInv w ->
  let w' :=
    match autocompleteDebounceTimer (vars w) with
    | Some id => clearTimeout id w
    | None => w
    end in
  TimerInv w' /\ debounce w' = [] /\
  vars w' = vars w /\ dom w' = dom w /\
  nextTimer (loop w') = nextTimer (loop w) /\
  now (loop w') = now (loop w) /\
  fetched (loop w') = fetched (loop w).
Proof.
  intros Hinv. cbn zeta.
  destruct (autocompleteDebounceTimer (vars w)) as [id |] eqn:Eh.
  - split; [eapply TimerInv_filter; [| | | exact Hinv]; reflexivity |].
    split; [| now repeat split].
    unfold debounce. cbn. rewrite select_timers_comm. apply select_no_timer.
    intros t Hin. apply filter_In in Hin as [Hin Hload].
    destruct Hinv as (_ & H2 & _). rewrite Forall_forall in H2.
    specialize (H2 t Hin Hload). rewrite Eh in H2. injection H2 as ->.
    now rewrite Nat.eqb_refl.
  - split; [exact Hinv |]. split; [| now repeat split].
    apply select_no_timer. intros t Hin.
    destruct Hinv as (_ & H2 & _). rewrite Forall_forall in H2.
    destruct (isLoad t) eqn:El; [| reflexivity].
    specialize (H2 t Hin El). congruence.
Qed.

Lemma input_arms (w : World) (v : jsstring) :
  TimerInv w ->
  let w' := step w (Input v) in
  TimerInv w' /\
  debounce w' = armed v (nextTimer (loop w)) (now (loop w)) /\
  now (loop w') = now (loop w) /\
  fetched (loop w') = fetched (loop w).
Proof.
  intros Hinv. cbn zeta. cbn [step]. unfold handleSearchInput, armed.
  set (w1 := setDom (fun d => withInput v true d) w).
  assert (Hinv1 : TimerInv w1) by exact Hinv.
  destruct (cancel_clears_debounce Hinv1)
    as (Hinv2 & Hd & Hvars & Hdom & Hnext & Hnow & Hfetched).
  cbn zeta in *. change (paperInput_value (dom w1)) with v.
  set (w2 := match autocompleteDebounceTimer (vars w1) with
             | Some id => clearTimeout id w1
             | None => w1
             end) in *.
  change (nextTimer (loop w1)) with (nextTimer (loop w)) in Hnext.
  change (now (loop w1)) with (now (loop w)) in Hnow.
  change (fetched (loop w1)) with (fetched (loop w)) in Hfetched.
  destruct (List.length (trim v) <? 2).
  - split; [exact Hinv2 |]. now repeat split.
  - cbn. split; [| split; [| now split]].
    + destruct Hinv2 as (H1 & H2 & H3). unfold TimerInv. cbn.
      repeat split.
      * apply Forall_app. split.
        -- eapply Forall_impl; [| exact H1]. cbn. intros t Ht. lia.
        -- constructor; [cbn; lia | constructor].
      * apply Forall_app. split.
        -- rewrite Forall_forall. intros t Hin Hload. exfalso.
           assert (Hm : In t (debounce w2))
             by (apply filter_In; now split).
           rewrite Hd in Hm. contradiction.
        -- constructor; [now cbn | constructor].
      * rewrite map_app. cbn [map].
        apply Permutation_NoDup
          with (l := nextTimer (loop w2) :: map timer_id (timers (loop w2))).
        -- apply Permutation_cons_append.
        -- apply NoDup_cons; [now apply Forall_fresh | exact H3].
    + unfold debounce in *. cbn. rewrite filter_app, Hd, Hnext, Hnow.
      reflexivity.
Qed.

(** Time passing keeps the invariant and the identifier counter. *)
Lemma TimerInv_elapse (ms : nat) (w : World) :
  TimerInv w -> TimerInv (elapse ms w).
Proof.
  pose proof (tview_elapse ms w) as H. unfold tview in H.
  injection H as H1 H2 H3 _ _.
  now apply TimerInv_filter with (p := fun t => negb (dueBy (now (loop w) + ms) t)).
Qed.

Lemma TimerInv_step (w : World) (e : Event) :
  TimerInv w -> TimerInv (step w e).
Proof.
  intros H. destruct e; cbn [step].
  - now apply input_arms.
  - unfold handleAutocompleteKeyboard.
    destruct (negb _); [exact H |]. destruct (_ =? _)%Z; [exact H |].
    destruct key; try exact H.
    destruct (_ && _); [| exact H]. now destruct (nth_error _ _).
  - unfold mouseEnterItem. now destruct (nth_error _ _).
  - unfold clickItem. now destruct (nth_error _ _).
  - exact H.
  - unfold submitSearch. now destruct (negb _).
  - now apply TimerInv_elapse.
  - destruct (takeRequest _ id w) as [w' |] eqn:Htake; [| exact H].
    unfold takeRequest in Htake. destruct (existsb _ _); [| discriminate].
    injection Htake as <-.
    destruct outcome as [m | | m | data]; try exact H.
    cbn [loadAutocompleteSuggestions_resume].
    unfold renderAutocompleteSuggestions. now destruct (_ =? _)%nat.
  - destruct (takeRequest _ id w) as [w' |] eqn:Htake; [| exact H].
    unfold takeRequest in Htake. destruct (existsb _ _); [| discriminate].
    injection Htake as <-.
    unfold performSearch_resume. cbn [setLoading].
    destruct outcome as [m | | m | data]; try exact H.
    apply TimerInv_scroll.
    unfold renderRepos. now destruct (reposHtml _).
Qed.

Lemma TimerInv_run (events : list Event) (w : World) :
  TimerInv w -> TimerInv (run w events).
Proof.
  revert w. unfold run.
  induction events as [| e events IH]; intros w H; [exact H |].
  cbn [fold_left]. apply IH. now apply TimerInv_step.
Qed.

Lemma perm_short {A : Type} (a b : list A) :
  Permutation a b -> List.length b <= 1 -> a = b.
Proof.
  intros Hp Hlen. destruct b as [| x [| y b]]; cbn in Hlen; try lia.
  - apply Permutation_sym in Hp. now apply Permutation_nil in Hp.
  - apply Permutation_sym in Hp. now apply Permutation_length_1_inv in Hp.
Qed.

Lemma length_armed (v : jsstring) (id start : nat) :
  List.length (armed v id start) <= 1.
Proof. unfold armed. destruct (_ <? _); cbn; lia. Qed.

(** What time passing does to the requests issued, when the pending
    debounce timeout is the one armed for [v] at time [start]. *)
Lemma elapse_fetched (ms : nat) (w : World) (v : jsstring) (id start : nat) :
  debounce w = armed v id start ->
  fetched (loop (elapse ms w))
  = fetched (loop w)
    ++ loads (filter (dueBy (now (loop w) + ms)) (armed v id start)).
Proof.
  intros Hd.
  pose proof (tview_elapse ms w) as H. unfold tview in H.
  injection H as _ _ _ _ H. rewrite H. f_equal.
  rewrite <- Hd. apply perm_short; [apply loads_due |].
  rewrite Hd.
  transitivity (List.length (filter (dueBy (now (loop w) + ms))
                                    (armed v id start))).
  - unfold armed. destruct (_ <? _); [cbn; lia |].
    cbn [filter]. destruct (dueBy _ _); cbn; lia.
  - pose proof (length_armed v id start) as Hl.
    pose proof (filter_length_le (dueBy (now (loop w) + ms))
                                 (armed v id start)). lia.
Qed.




End Debounce.

(** ** Search *)

Section Search.














End Search.

(** ** More about the formatter *)

Section FormatterText.

Local Open Scope N_scope.


Lemma numberChar_lit (c : char16) :
  In c (lit "-.+eKMNaInfity") -> numberChar c = true.
Proof.
  intros H. unfold numberChar.
  replace (existsb (N.eqb c) (lit "-.+eKMNaInfity")) with true;
    [apply orb_true_r |].
  symmetry. apply existsb_exists. exists c. split; [exact H | apply N.eqb_refl].
Qed.











Lemma length_escapeChar (c : char16) : (1 <= List.length (escapeChar c))%nat.
Proof.
  destruct (escapeChar_cases c)
    as [[_ ->] | [[_ ->] | [[_ ->] | [[_ ->] | (_ & _ & _ & _ & ->)]]]];
    cbn; lia.
Qed.

Lemma length_escapeHtml (text : jsstring) :
  (List.length text <= List.length (escapeHtml text))%nat.
Proof.
  induction text as [| c text IH]; [reflexivity |].
  rewrite escapeHtml_cons, length_app. cbn [List.length].
  pose proof (length_escapeChar c). lia.
Qed.

(** [escapeHtml] never shortens a text, and it returns the text unchanged
    exactly when the text has none of the four characters it replaces
    ([&], the no-break space, [<], [>]). *)
Theorem escapeHtml_unchanged_iff (text : jsstring) :
  (List.length text <= List.length (escapeHtml text))%nat /\
  (escapeHtml text = text <-> forallb (fun c => negb (special c)) text = true).
Proof.
  split; [apply length_escapeHtml |].
  induction text as [| c text IH]; [easy |].
  rewrite escapeHtml_cons. cbn [forallb]. unfold special at 1.
  destruct (escapeChar_cases c)
    as [[-> E] | [[-> E] | [[-> E] | [[-> E] | (H1 & H2 & H3 & H4 & E)]]]];
    rewrite E; clear E.
  1-4: split; [| discriminate]; intros H; exfalso;
    apply (f_equal (@List.length _)) in H;
    rewrite length_app in H; cbn in H;
    pose proof (length_escapeHtml text); lia.
  apply N.eqb_neq in H1, H2, H3, H4. rewrite H1, H2, H3, H4.
  cbn [orb negb andb app]. rewrite <- IH.
  split; [now intros [= ->] | now intros ->].
Qed.

End FormatterText.

(** ** [trim] *)

Section Trim.

Lemma trimStart_fixed (s : jsstring) :
  startsWithSpace s = false -> trimStart s = s.
Proof. destruct s as [| c s]; [reflexivity |]. cbn. now intros ->. Qed.

Lemma trimStart_head (s : jsstring) : startsWithSpace (trimStart s) = false.
Proof.
  induction s as [| c s IH]; [reflexivity |].
  cbn [trimStart]. destruct (isWhiteSpace c) eqn:E; [exact IH |].
  cbn. exact E.
Qed.

Lemma trimStart_spaces (ws s : jsstring) :
  forallb isWhiteSpace ws = true -> trimStart (ws ++ s) = trimStart s.
Proof.
  induction ws as [| c ws IH]; intros H; [reflexivity |].
  cbn [forallb] in H. apply andb_prop in H as [Hc Hws].
  cbn [app trimStart]. rewrite Hc. now apply IH.
Qed.



Lemma trimEnd_nil : trimEnd [] = [].
Proof. reflexivity. Qed.

(** What [trimEnd] keeps is the start of its argument. *)
Lemma trimEnd_prefix (s : jsstring) :
  exists ws, s = trimEnd s ++ ws /\ forallb isWhiteSpace ws = true.
Proof.
  unfold trimEnd.
  assert (H : forall r : jsstring,
             exists ws, r = ws ++ trimStart r /\
                        forallb isWhiteSpace ws = true).
  { induction r as [| c r [ws [E Hws]]]; [now exists [] |].
    cbn [trimStart]. destruct (isWhiteSpace c) eqn:Ec.
    - exists (c :: ws). cbn [app forallb]. rewrite Ec, Hws.
      split; [now f_equal | reflexivity].
    - now exists []. }
  destruct (H (rev s)) as (ws & E & Hws).
  exists (rev ws). split.
  - rewrite <- (rev_involutive s), E at 1. now rewrite rev_app_distr.
  - rewrite forallb_forall in *. intros c Hc. apply Hws. now apply in_rev.
Qed.

Lemma trimEnd_keeps_head (s : jsstring) :
  startsWithSpace s = false -> startsWithSpace (trimEnd s) = false.
Proof.
  intros H. destruct (trimEnd_prefix s) as (ws & E & _).
  destruct (trimEnd s) as [| c r]; [reflexivity |].
  rewrite E in H. exact H.
Qed.

Lemma trim_head (s : jsstring) : startsWithSpace (trim s) = false.
Proof. apply trimEnd_keeps_head, trimStart_head. Qed.

Lemma trim_last (s : jsstring) : startsWithSpace (rev (trim s)) = false.
Proof. unfold trim, trimEnd. rewrite rev_involutive. apply trimStart_head. Qed.

Lemma trim_idempotent (s : jsstring) : trim (trim s) = trim s.
Proof.
  unfold trim at 1. rewrite (trimStart_fixed (trim s)) by apply trim_head.
  unfold trimEnd. rewrite (trimStart_fixed (rev (trim s))) by apply trim_last.
  apply rev_involutive.
Qed.



Lemma trim_blank (s : jsstring) :
  forallb isWhiteSpace s = true -> trim s = [].
Proof.
  intros H. unfold trim.
  rewrite <- (app_nil_r s), trimStart_spaces by exact H. reflexivity.
Qed.

End Trim.

(** ** [parseInt] and [encodeURIComponent] *)

Section Builtins.

Local Open Scope N_scope.










Lemma hexDigit_unreserved (n : N) : n < 16 -> unreserved (hexDigit n) = true.
Proof.
  intros H. destruct n as [| p]; [reflexivity |].
  do 4 (destruct p as [p | p |]; try reflexivity); lia.
Qed.

Lemma percent_safe (octet : N) :
  octet < 256 -> forallb urlSafe (percent octet) = true.
Proof.
  intros H. unfold percent, urlSafe. cbn [forallb].
  rewrite !hexDigit_unreserved.
  - reflexivity.
  - apply N.mod_lt. discriminate.
  - apply N.Div0.div_lt_upper_bound. exact H.
Qed.

Lemma utf8_octets (cp : N) :
  cp < 2097152 -> Forall (fun o => o < 256) (utf8 cp).
Proof.
  intros H. unfold utf8.
  assert (M : forall a, a mod 64 < 64) by (intros a; now apply N.mod_lt).
  destruct (N.ltb_spec cp 128) as [H1 | H1]; [repeat (apply Forall_cons; [lia |]); apply Forall_nil |].
  destruct (N.ltb_spec cp 2048) as [H2 | H2].
  { assert (cp / 64 < 32) by (apply N.Div0.div_lt_upper_bound; lia).
    pose proof (M cp). repeat (apply Forall_cons; [lia |]); apply Forall_nil. }
  destruct (N.ltb_spec cp 65536) as [H3 | H3].
  { assert (cp / 4096 < 16) by (apply N.Div0.div_lt_upper_bound; lia).
    pose proof (M cp). pose proof (M (cp / 64)).
    repeat (apply Forall_cons; [lia |]); apply Forall_nil. }
  assert (cp / 262144 < 8) by (apply N.Div0.div_lt_upper_bound; lia).
  pose proof (M cp). pose proof (M (cp / 64)). pose proof (M (cp / 4096)).
  repeat (apply Forall_cons; [lia |]); apply Forall_nil.
Qed.

Lemma escapes_safe (cp : N) :
  cp < 2097152 -> forallb urlSafe (flat_map percent (utf8 cp)) = true.
Proof.
  intros H. pose proof (utf8_octets H) as Ho.
  induction Ho as [| o os Ho _ IH]; [reflexivity |].
  cbn [flat_map]. rewrite forallb_app, IH, (percent_safe Ho). reflexivity.
Qed.

Lemma encodeURIComponent_cons (c : char16) (r : jsstring) :
  encodeURIComponent (c :: r)
  = if unreserved c then option_map (cons c) (encodeURIComponent r)
    else if (c <? 55296) || (57343 <? c) then
      option_map (app (flat_map percent (utf8 c))) (encodeURIComponent r)
    else if c <? 56320 then
      match r with
      | d :: r' =>
          if (56320 <=? d) && (d <=? 57343) then
            option_map
              (app (flat_map percent
                      (utf8 (65536 + (c - 55296) * 1024 + (d - 56320)))))
              (encodeURIComponent r')
          else None
      | [] => None
      end
    else None.
Proof. reflexivity. Qed.

Lemma encodeURIComponent_safe (s : jsstring) :
  forall u,
    codeUnits s = true ->
    encodeURIComponent s = Some u -> forallb urlSafe u = true.
Proof.
  enough (H : forall n s,
             (List.length s <= n)%nat ->
             forall u, codeUnits s = true ->
                       encodeURIComponent s = Some u ->
                       forallb urlSafe u = true)
    by (apply (H (List.length s)); reflexivity).
  clear s. induction n as [| n IHn]; intros s Hlen u Hs Hu.
  { destruct s; [now injection Hu as <- | cbn in Hlen; lia]. }
  assert (IH : forall r, (List.length r < List.length s)%nat ->
                         forall v, codeUnits r = true ->
                                   encodeURIComponent r = Some v ->
                                   forallb urlSafe v = true)
    by (intros r Hr; apply IHn; lia).
  clear IHn. destruct s as [| c r]; [now injection Hu as <- |].
  cbn [codeUnits forallb] in Hs. apply andb_prop in Hs as [Hc Hr].
  apply N.ltb_lt in Hc. rewrite encodeURIComponent_cons in Hu.
  destruct (unreserved c) eqn:Ec.
  { destruct (encodeURIComponent r) as [v |] eqn:Ev; [| discriminate Hu].
    injection Hu as <-. cbn [forallb]. unfold urlSafe at 1. rewrite Ec.
    apply (IH r); [cbn; lia | exact Hr | exact Ev]. }
  destruct ((c <? 55296) || (57343 <? c)).
  { destruct (encodeURIComponent r) as [v |] eqn:Ev; [| discriminate Hu].
    injection Hu as <-. rewrite forallb_app, escapes_safe by lia.
    apply (IH r); [cbn; lia | exact Hr | exact Ev]. }
  destruct (N.ltb_spec c 56320) as [Hh | _]; [| discriminate Hu].
  destruct r as [| d r']; [discriminate Hu |].
  cbn [forallb] in Hr. apply andb_prop in Hr as [Hd Hr'].
  destruct (N.leb_spec 56320 d) as [Hd1 | _]; [| discriminate Hu].
  destruct (N.leb_spec d 57343) as [Hd2 | _]; [| discriminate Hu].
  cbv beta iota in Hu.
  remember (65536 + (c - 55296) * 1024 + (d - 56320)) as cp eqn:Ecp.
  assert (Hcp : cp < 2097152) by lia. clear Ecp.
  destruct (encodeURIComponent r') as [v |] eqn:Ev; [| discriminate Hu].
  unfold option_map in Hu. injection Hu as <-.
  rewrite forallb_app, escapes_safe by exact Hcp.
  apply (IH r'); [cbn; lia | exact Hr' | exact Ev].
Qed.

Lemma encodeURIComponent_unreserved (s : jsstring) :
  forallb unreserved s = true -> encodeURIComponent s = Some s.
Proof.
  induction s as [| c r IH]; intros H; [reflexivity |].
  cbn [forallb] in H. apply andb_prop in H as [Hc Hr].
  cbn [encodeURIComponent]. now rewrite Hc, (IH Hr).
Qed.

Lemma countChar_app (c : char16) (a b : jsstring) :
  countChar c (a ++ b) = (countChar c a + countChar c b)%nat.
Proof. apply count_occ_app. Qed.

Lemma countChar_safe (c : char16) (u : jsstring) :
  urlSafe c = false -> forallb urlSafe u = true -> countChar c u = 0%nat.
Proof.
  intros Hc Hu. apply count_occ_not_In. intros Hin.
  rewrite forallb_forall in Hu. specialize (Hu c Hin). congruence.
Qed.

(** The text typed into the search field, or a category name, cannot add a
    parameter to a request or cut its URL short: whatever the query, the
    URL the script builds has one [?], no [#], and [&] and [=] only where
    the template puts them.  A query of letters and digits goes into the
    URL as it is. *)
Theorem url_parameters_are_fixed (url : Url) (text : jsstring) :
  urlUnits url = true ->
  urlText url = Some text ->
  countChar 63 text = 1%nat /\
  countChar 35 text = 0%nat /\
  countChar 38 text = (if hasCategory url then 1 else 0)%nat /\
  countChar 61 text = (if hasCategory url then 2 else 1)%nat /\
  countChar 32 text = 0%nat /\
  urlText (SearchUrl (lit "transformer") None)
  = Some (lit "/api/search?q=transformer") /\
  urlText (SearchUrl (lit "transformer") (Some (lit "NLP")))
  = Some (lit "/api/search?q=transformer&category=NLP").
Proof.
  intros Hunits Htext.
  assert (Hsafe : forall c s u,
             urlSafe c = false -> codeUnits s = true ->
             encodeURIComponent s = Some u -> countChar c u = 0%nat).
  { intros c s u Hc Hs Hu.
    apply countChar_safe; [exact Hc |].
    exact (@encodeURIComponent_safe s u Hs Hu). }
  assert (Hex : urlText (SearchUrl (lit "transformer") None)
                = Some (lit "/api/search?q=transformer") /\
                urlText (SearchUrl (lit "transformer") (Some (lit "NLP")))
                = Some (lit "/api/search?q=transformer&category=NLP"))
    by (split; reflexivity).
  destruct url as [query | query [category |]]; cbn [urlText] in Htext;
    cbn [urlUnits] in Hunits; cbn [hasCategory].
  - destruct (encodeURIComponent query) as [q |] eqn:Eq; [| discriminate].
    assert (E : text = lit "/api/search-suggestions?q=" ++ q)
      by (cbn [option_map] in Htext; congruence).
    rewrite E, !countChar_app.
    rewrite !(Hsafe _ query q) by (reflexivity || assumption).
    repeat split; try reflexivity; apply Hex.
  - apply andb_prop in Hunits as [Hq Hc].
    destruct (encodeURIComponent query) as [q |] eqn:Eq; [| discriminate].
    destruct (encodeURIComponent category) as [c |] eqn:Ec; [| discriminate].
    assert (E : text = lit "/api/search?q=" ++ q ++ lit "&category=" ++ c)
      by (cbn [option_map] in Htext; congruence).
    rewrite E, !countChar_app.
    rewrite !(Hsafe _ query q), !(Hsafe _ category c)
      by (reflexivity || assumption).
    repeat split; try reflexivity; apply Hex.
  - destruct (encodeURIComponent query) as [q |] eqn:Eq; [| discriminate].
    assert (E : text = lit "/api/search?q=" ++ q) by congruence.
    rewrite E, !countChar_app.
    rewrite !(Hsafe _ query q) by (reflexivity || assumption).
    repeat split; try reflexivity; apply Hex.
Qed.

Lemma url_parameters_are_fixed_witness :
  countChar 38
    (lit "/api/search-suggestions?q=a%26b%3D1%20%23x") = 0%nat.
Proof.
  assert (Hu : urlUnits (SuggestionsUrl (lit "a&b=1 #x")) = true)
    by reflexivity.
  assert (Ht : urlText (SuggestionsUrl (lit "a&b=1 #x"))
               = Some (lit "/api/search-suggestions?q=a%26b%3D1%20%23x"))
    by reflexivity.
  destruct (@url_parameters_are_fixed _ _ Hu Ht) as (_ & _ & H & _).
  exact H.
Defined.

End Builtins.

(** ** More about the renderers *)

Section RendererText.













Lemma mapRepos_null (repos : list (option Repo)) :
  In None repos -> snd (mapRepos repos) = None.
Proof.
  induction repos as [| [r |] repos IH]; intros H.
  - contradiction.
  - destruct H as [H | H]; [discriminate H |].
    cbn [mapRepos]. specialize (IH H).
    destruct (mapRepos repos) as [warns htmls]. cbn [snd] in IH. subst htmls.
    now destruct (invalidRepo r).
  - reflexivity.
Qed.

(** One [null] entry in the array is enough for [renderRepos] to show
    "Error displaying code implementations" in place of every card, the
    valid ones included, and to log the error: the exception leaves the
    [map] and is caught around the whole rendering. *)
Theorem renderRepos_null_entry_hides_all (repos : list (option Repo))
  (w : World) :
  In None repos ->
  let w' := renderRepos (Some repos) w in
  reposContainer_innerHTML (dom w')
  = emptyState "Error displaying code implementations" /\
  (exists logged,
     console (loop w')
     = console (loop w) ++ logged
       ++ [ConsoleError (lit "Error rendering repos:")]) /\
  videosContainer_innerHTML (dom w') = videosContainer_innerHTML (dom w) /\
  view w' = view w.
Proof.
  intros H. cbn zeta. pose proof (mapRepos_null repos H) as Hn.
  unfold renderRepos, reposHtml.
  destruct repos as [| r rs]; [contradiction |].
  destruct (mapRepos (r :: rs)) as [warns htmls]. cbn [snd] in Hn.
  subst htmls. cbn -[emptyState lit].
  split; [reflexivity |]. split; [| now split].
  exists (ConsoleLog (lit "Rendering repos:") :: warns). reflexivity.
Qed.

Lemma renderRepos_null_entry_hides_all_witness :
  reposContainer_innerHTML
    (dom (renderRepos (Some [Some repoA; None]) initial))
  = emptyState "Error displaying code implementations".
Proof.
  assert (H : In None [Some repoA; None]) by (right; left; reflexivity).
  exact (proj1 (@renderRepos_null_entry_hides_all
                  [Some repoA; None] initial H)).
Defined.

Lemma mapRepos_warnings (repos : list Repo) :
  fst (mapRepos (map Some repos))
  = map (fun _ => ConsoleWarn (lit "Invalid repo data:"))
        (filter invalidRepo repos).
Proof.
  induction repos as [| r repos IH]; [reflexivity |].
  cbn [map mapRepos filter].
  destruct (mapRepos (map Some repos)) as [warns htmls]. cbn [fst] in IH.
  subst warns. now destruct (invalidRepo r).
Qed.

(** Rendering an array of repo objects writes to the console the "Rendering
    repos" line and then one warning for each entry that fails the
    validation, in order, and nothing else: dropped entries are reported to
    the developer, never shown as an error. *)
Theorem renderRepos_warns_once_per_invalid (repos : list Repo) (w : World) :
  console (loop (renderRepos (Some (map Some repos)) w))
  = console (loop w)
    ++ ConsoleLog (lit "Rendering repos:")
    :: map (fun _ => ConsoleWarn (lit "Invalid repo data:"))
           (filter invalidRepo repos).
Proof.
  unfold renderRepos, reposHtml.
  destruct repos as [| r repos]; [reflexivity |].
  change (map Some (r :: repos)) with (Some r :: map Some repos).
  pose proof (mapRepos_warnings (r :: repos)) as Hw.
  pose proof (mapRepos_objects (r :: repos)) as Ho.
  change (map Some (r :: repos)) with (Some r :: map Some repos) in Hw, Ho.
  destruct (mapRepos (Some r :: map Some repos)) as [warns htmls].
  cbn [fst snd] in Hw, Ho. subst warns htmls.
  now destruct (negb (truthy _)).
Qed.

End RendererText.

(** ** More about the dropdown *)

Section Highlight.

Local Open Scope Z_scope.










End Highlight.

(** ** More about the debounce *)

Section DebounceMore.

Lemma dview_equal (w w' : World) :
  debounce w' = debounce w ->
  suggestionRequests w' = suggestionRequests w ->
  now (loop w') = now (loop w) ->
  autocompleteDebounceTimer (vars w') = autocompleteDebounceTimer (vars w) ->
  dview w' = dview w.
Proof. unfold dview. now intros -> -> -> ->. Qed.

Lemma dview_performSearch_call (query : jsstring) (w : World) :
  dview (performSearch_call query w) = dview w.
Proof.
  apply dview_equal; try reflexivity.
  unfold suggestionRequests. cbn. rewrite filter_app. cbn. apply app_nil_r.
Qed.

Lemma dview_hideAutocomplete (w : World) : dview (hideAutocomplete w) = dview w.
Proof. reflexivity. Qed.

Lemma dview_trans (w1 w2 w3 : World) :
  dview w3 = dview w2 -> dview w2 = dview w1 -> dview w3 = dview w1.
Proof. congruence. Qed.

Lemma dview_keyboard (key : Key) (w : World) :
  dview (handleAutocompleteKeyboard key w) = dview w.
Proof.
  unfold handleAutocompleteKeyboard.
  destruct (negb _); [reflexivity |]. destruct (_ =? _)%Z; [reflexivity |].
  destruct key; try reflexivity.
  destruct (_ && _); [| reflexivity]. destruct (nth_error _ _); [| reflexivity].
  now rewrite dview_performSearch_call.
Qed.

Lemma dview_takeRequest (kind : Url -> bool) (id : nat) (w w' : World) :
  takeRequest kind id w = Some w' -> dview w' = dview w.
Proof.
  unfold takeRequest. destruct (existsb _ _); [| discriminate].
  now intros [= <-].
Qed.

Lemma dview_suggestions_resume
  (outcome : Settled (option (list Suggestion))) (w : World) :
  dview (loadAutocompleteSuggestions_resume outcome w) = dview w.
Proof.
  destruct outcome; cbn [loadAutocompleteSuggestions_resume];
    try reflexivity.
  unfold renderAutocompleteSuggestions. now destruct (_ =? _)%nat.
Qed.

Lemma dview_search_resume (outcome : Settled SearchData) (w : World) :
  dview (performSearch_resume outcome w) = dview w.
Proof.
  unfold performSearch_resume. cbn [setLoading].
  destruct outcome as [m | | m | data]; try reflexivity.
  unfold renderRepos. destruct (reposHtml _) as [logged html].
  apply dview_equal; try reflexivity.
  unfold debounce. cbn. rewrite filter_app. cbn. apply app_nil_r.
Qed.

(** Keys, the mouse, the form and responses leave the debounce alone: only
    typing arms or cancels its timer, and only the timer issues a
    suggestion request. *)
Lemma dview_interaction (w : World) (e : Event) :
  interaction e = true -> dview (step w e) = dview w.
Proof.
  intros He. destruct e; try discriminate He; cbn [step].
  - apply dview_keyboard.
  - unfold mouseEnterItem. now destruct (nth_error _ _).
  - unfold clickItem. destruct (nth_error _ _); [| reflexivity].
    now rewrite dview_performSearch_call.
  - reflexivity.
  - unfold submitSearch. destruct (negb _); [reflexivity |].
    now rewrite dview_performSearch_call.
  - destruct (takeRequest _ id w) as [w' |] eqn:Htake; [| reflexivity].
    rewrite dview_suggestions_resume. exact (dview_takeRequest _ _ _ Htake).
  - destruct (takeRequest _ id w) as [w' |] eqn:Htake; [| reflexivity].
    rewrite dview_search_resume. exact (dview_takeRequest _ _ _ Htake).
Qed.

Lemma dview_interactions (events : list Event) :
  forall w, forallb interaction events = true -> dview (run w events) = dview w.
Proof.
  unfold run. induction events as [| e events IH]; intros w H; [reflexivity |].
  cbn [forallb] in H. apply andb_prop in H as [He Hes].
  cbn [fold_left]. rewrite (IH _ Hes). now apply dview_interaction.
Qed.

Lemma loads_are_suggestions (ts : list Timer) :
  filter isSuggestions (loads ts) = loads ts.
Proof.
  induction ts as [| t ts IH]; [reflexivity |].
  rewrite loads_cons, filter_app, IH. f_equal.
  unfold loads. cbn [flat_map]. now destruct (timer_callback t).
Qed.

Lemma length_loads (ts : list Timer) :
  List.length (loads ts) = List.length (filter isLoad ts).
Proof.
  induction ts as [| t ts IH]; [reflexivity |].
  rewrite loads_cons, length_app, IH. unfold loads, isLoad.
  cbn [flat_map filter]. now destruct (timer_callback t).
Qed.

(** What time passing does to the debounce: the timeouts that are due
    leave the queue and each issues its request. *)
Lemma elapse_debounce (ms : nat) (w : World) :
  debounce (elapse ms w)
  = filter (fun t => negb (dueBy (now (loop w) + ms) t)) (debounce w) /\
  exists issued,
    suggestionRequests (elapse ms w) = suggestionRequests w ++ issued /\
    Permutation issued (loads (filter (dueBy (now (loop w) + ms)) (debounce w))).
Proof.
  pose proof (tview_elapse ms w) as H. unfold tview in H.
  injection H as _ Ht _ _ Hf. split.
  - unfold debounce. rewrite Ht. apply select_timers_comm.
  - eexists. split; [| apply loads_due].
    unfold suggestionRequests. rewrite Hf, filter_app.
    now rewrite loads_are_suggestions.
Qed.

Lemma length_armed_qualifying (v : jsstring) (id start : nat) :
  List.length (armed v id start) = if qualifying (Input v) then 1 else 0.
Proof. unfold armed, qualifying. now destruct (_ <? 2). Qed.

(** One step adds at most one to the number of suggestion requests issued
    or waiting on the timer, and only a qualifying input event does. *)
Lemma request_count_step (w : World) (e : Event) :
  TimerInv w ->
  List.length (suggestionRequests (step w e)) + List.length (debounce (step w e))
  <= List.length (suggestionRequests w) + List.length (debounce w)
     + (if qualifying e then 1 else 0).
Proof.
  intros Hinv.
  destruct (interaction e) eqn:Hi.
  - pose proof (dview_interaction w e Hi) as H. unfold dview in H.
    injection H as -> -> _ _. destruct e; cbn [qualifying]; lia.
  - destruct e; try discriminate Hi.
    + destruct (input_arms value Hinv) as (_ & Hd & _ & Hf).
      unfold suggestionRequests. rewrite Hd, Hf, length_armed_qualifying. lia.
    + cbn [step qualifying].
      destruct (elapse_debounce ms w) as (Hd & issued & Hs & Hp).
      rewrite Hd, Hs, length_app, (Permutation_length Hp), length_loads.
      pose proof (filter_length (dueBy (now (loop w) + ms)) (debounce w)) as Hl.
      assert (Hall : filter isLoad (filter (dueBy (now (loop w) + ms))
                                            (debounce w))
                     = filter (dueBy (now (loop w) + ms)) (debounce w)).
      { unfold debounce. rewrite select_timers_comm.
        f_equal. clear. induction (timers (loop w)) as [| t ts IH];
          [reflexivity |].
        cbn [filter]. destruct (isLoad t) eqn:E; cbn [filter]; rewrite ?E;
          now rewrite IH. }
      rewrite Hall. lia.
Qed.

Lemma debounce_single (w : World) :
  TimerInv w -> List.length (debounce w) <= 1.
Proof.
  intros (_ & H2 & H3).
  pose proof (distinct_ids_filter isLoad _ H3) as Hnd.
  fold (debounce w) in Hnd.
  assert (Hall : forall t, In t (debounce w) ->
                           autocompleteDebounceTimer (vars w)
                           = Some (timer_id t)).
  { intros t Ht. apply filter_In in Ht as [Ht Hl].
    rewrite Forall_forall in H2. now apply H2. }
  destruct (debounce w) as [| a [| b l]]; cbn; try lia.
  exfalso. cbn [map] in Hnd. apply NoDup_cons_iff in Hnd as [Hnotin _].
  apply Hnotin. left.
  pose proof (Hall a (or_introl eq_refl)) as Ha.
  pose proof (Hall b (or_intror (or_introl eq_refl))) as Hb.
  congruence.
Qed.

(** However the page is used, at most one autocomplete timer is pending
    at any moment, and the suggestion requests issued so far, together with
    the one still waiting on the timer, are never more than the qualifying
    input events received: no keystroke is answered by two requests. *)
Theorem suggestion_requests_are_bounded (events : list Event) :
  List.length (debounce (run initial events)) <= 1 /\
  List.length (suggestionRequests (run initial events))
  + List.length (debounce (run initial events))
  <= List.length (filter qualifying events).
Proof.
  split; [apply debounce_single, TimerInv_run, TimerInv_initial |].
  enough (H : forall w n,
             TimerInv w ->
             List.length (suggestionRequests w) + List.length (debounce w) <= n ->
             List.length (suggestionRequests (run w events))
             + List.length (debounce (run w events))
             <= n + List.length (filter qualifying events))
    by (apply (H initial 0); [apply TimerInv_initial | reflexivity]).
  unfold run. induction events as [| e events IH]; intros w n Hinv Hn.
  - cbn. lia.
  - cbn [fold_left filter].
    pose proof (request_count_step e Hinv) as Hstep.
    assert (Hinv' : TimerInv (step w e)) by now apply TimerInv_step.
    destruct (qualifying e).
    + cbn [List.length].
      specialize (IH (step w e) (S n) Hinv' ltac:(lia)). lia.
    + specialize (IH (step w e) n Hinv' ltac:(lia)). lia.
Qed.

Lemma TrimmedQueries_dview (w w' : World) :
  dview w' = dview w -> TrimmedQueries w -> TrimmedQueries w'.
Proof.
  unfold dview, TrimmedQueries. intros E H. injection E as -> -> _ _. exact H.
Qed.

Lemma loads_trimmed (ts : list Timer) :
  Forall (fun t => forall q, timer_callback t = LoadSuggestions q ->
                             trimmedQuery q) ts ->
  Forall (fun u => trimmedQuery (requestQuery u)) (loads ts).
Proof.
  intros H. induction H as [| t ts Ht _ IH]; [constructor |].
  rewrite loads_cons. apply Forall_app. split; [| exact IH].
  unfold loads. cbn [flat_map].
  destruct (timer_callback t) as [q |] eqn:E; [| constructor].
  apply Forall_cons; [| apply Forall_nil]. cbn [requestQuery]. now apply Ht.
Qed.

Lemma Forall_filter_timers (P : Timer -> Prop) (keep : Timer -> bool)
  (ts : list Timer) :
  Forall P ts -> Forall P (filter keep ts).
Proof.
  intros H. rewrite Forall_forall in *. intros t Ht.
  apply filter_In in Ht as [Ht _]. now apply H.
Qed.

Lemma TrimmedQueries_step (w : World) (e : Event) :
  TimerInv w -> TrimmedQueries w -> TrimmedQueries (step w e).
Proof.
  intros Hinv [Ht Hr].
  destruct (interaction e) eqn:Hi.
  - eapply TrimmedQueries_dview; [now apply dview_interaction | now split].
  - destruct e; try discriminate Hi.
    + destruct (input_arms value Hinv) as (_ & Hd & _ & Hf).
      split.
      * rewrite Hd. unfold armed.
        destruct (Nat.ltb_spec (List.length (trim value)) 2) as [Hs | Hs];
          [constructor |].
        apply Forall_cons; [| apply Forall_nil].
        cbn [timer_callback]. intros q [= <-].
        split; [exact Hs | apply trim_idempotent].
      * unfold suggestionRequests. rewrite Hf. exact Hr.
    + cbn [step].
      destruct (elapse_debounce ms w) as (Hd & issued & Hs & Hp).
      split.
      * rewrite Hd. now apply Forall_filter_timers.
      * rewrite Hs. apply Forall_app. split; [exact Hr |].
        eapply Permutation_Forall; [apply Permutation_sym, Hp |].
        now apply loads_trimmed, Forall_filter_timers.
Qed.

(** Every suggestion request the page ever issues carries a query that is
    trimmed and has two code units or more: neither a one-letter query nor
    surrounding white space reaches the suggestions endpoint. *)
Theorem suggestion_queries_are_trimmed (events : list Event) :
  Forall (fun url => 2 <= List.length (requestQuery url) /\
                     trim (requestQuery url) = requestQuery url /\
                     startsWithSpace (requestQuery url) = false)
         (suggestionRequests (run initial events)).
Proof.
  assert (H : TrimmedQueries (run initial events)
              /\ TimerInv (run initial events)).
  { unfold run.
    assert (Hinit : TrimmedQueries initial /\ TimerInv initial)
      by (split; [split; constructor | apply TimerInv_initial]).
    revert Hinit. generalize initial.
    induction events as [| e events IH]; intros w Hw; [exact Hw |].
    cbn [fold_left]. apply IH. destruct Hw as [H1 H2].
    split; [now apply TrimmedQueries_step | now apply TimerInv_step]. }
  destruct H as [[_ H] _].
  eapply Forall_impl; [| exact H]. cbn beta. intros url [Hlen Htrim].
  split; [exact Hlen |]. split; [exact Htrim |].
  rewrite <- Htrim. apply trim_head.
Qed.

(** What follows an input event, some interaction and a wait: the requests
    of the timeouts that the input armed and that are due. *)
Lemma input_then_wait (w : World) (v : jsstring) (others : list Event)
  (wait : nat) :
  TimerInv w ->
  forallb interaction others = true ->
  suggestionRequests (run w (Input v :: others ++ [Elapse wait]))
  = suggestionRequests w
    ++ loads (filter (dueBy (now (loop w) + wait))
                     (armed v (nextTimer (loop w)) (now (loop w)))).
Proof.
  intros Hinv Hothers.
  destruct (input_arms v Hinv) as (_ & Hd & Hnow & Hf).
  change (run w (Input v :: others ++ [Elapse wait]))
    with (run (step w (Input v)) (others ++ [Elapse wait])).
  set (w1 := step w (Input v)) in *.
  unfold run. rewrite fold_left_app. cbn [fold_left step].
  fold (run w1 others).
  pose proof (dview_interactions others w1 Hothers) as Hv.
  unfold dview in Hv. injection Hv as Hd2 Hs2 Hnow2 _.
  rewrite Hd in Hd2.
  unfold suggestionRequests at 1.
  rewrite (@elapse_fetched wait (run w1 others) _ _ _ Hd2), filter_app.
  rewrite loads_are_suggestions. fold (suggestionRequests (run w1 others)).
  rewrite Hs2, Hnow2, Hnow. unfold suggestionRequests. now rewrite Hf.
Qed.



(** An input whose trimmed value is shorter than two code units hides the
    dropdown at once and cancels the pending timer: whatever was typed
    before it and however long one waits after it, no suggestion request
    follows. *)
Theorem short_input_cancels_and_hides
  (history : list Event) (v : jsstring) (others : list Event) (wait : nat) :
  forallb interaction others = true ->
  List.length (trim v) < 2 ->
  view (step (run initial history) (Input v)) = ([], (-1)%Z, false, [], []) /\
  debounce (step (run initial history) (Input v)) = [] /\
  suggestionRequests
    (run (run initial history) (Input v :: others ++ [Elapse wait]))
  = suggestionRequests (run initial history).
Proof.
  intros Hothers Hlen.
  assert (Hinv : TimerInv (run initial history))
    by apply TimerInv_run, TimerInv_initial.
  apply Nat.ltb_lt in Hlen as Hb.
  split; [| split].
  - cbn [step]. unfold handleSearchInput.
    change (paperInput_value
              (dom (setDom (fun d => withInput v true d)
                           (run initial history)))) with v.
    rewrite Hb. reflexivity.
  - destruct (input_arms v Hinv) as (_ & Hd & _).
    rewrite Hd. unfold armed. now rewrite Hb.
  - rewrite input_then_wait by assumption.
    unfold armed. rewrite Hb. cbn. apply app_nil_r.
Qed.

Lemma short_input_cancels_and_hides_witness :
  suggestionRequests
    (run (run initial [Input (lit "abc")])
         (Input (lit " a ") :: [] ++ [Elapse 1000]))
  = suggestionRequests (run initial [Input (lit "abc")]).
Proof.
  assert (Ho : forallb interaction [] = true) by reflexivity.
  assert (Hl : List.length (trim (lit " a ")) < 2) by (cbn; lia).
  destruct (@short_input_cancels_and_hides
              [Input (lit "abc")] (lit " a ") [] 1000 Ho Hl) as (_ & _ & H).
  exact H.
Defined.

End DebounceMore.

(** ** Committing a suggestion, submitting the form *)

Section Commit.

Local Open Scope Z_scope.







(** Submitting the form with an empty field, or one that holds only white
    space, does nothing at all: no loading display, no request, and the
    dropdown stays as it is. *)
Theorem blank_submit_does_nothing (w : World) :
  forallb isWhiteSpace (paperInput_value (dom w)) = true ->
  step w Submit = w.
Proof.
  intros H. cbn [step]. unfold submitSearch. now rewrite (trim_blank _ H).
Qed.

Lemma blank_submit_does_nothing_witness :
  step (step initial (Input (lit "   "))) Submit
  = step initial (Input (lit "   ")).
Proof.
  exact (@blank_submit_does_nothing (step initial (Input (lit "   ")))
           eq_refl).
Defined.




End Commit.

(** ** The sidebar *)

Section SidebarProofs.

Lemma category_hideAutocomplete (w : World) :
  currentCategory (vars (hideAutocomplete w)) = currentCategory (vars w).
Proof. reflexivity. Qed.

Lemma category_performSearch_call (query : jsstring) (w : World) :
  currentCategory (vars (performSearch_call query w))
  = currentCategory (vars w).
Proof. reflexivity. Qed.



































End SidebarProofs.
